(** * LinkLayerSNMPCollector: value decoding and LLDP table reconstruction

    A shallow embedding of the collector's three program variants:

    - [Hex] is the first program of [main.go]: octet strings are decoded with
      the printability heuristic, remote rows are closed by [hasAllKeys];
    - [Caps] is the second program of [main.go]: a remote row is closed when
      the capabilities column is seen;
    - [Indexed] is the program that groups remote cells in nested maps keyed
      by components of the identifier;
    - [Report] is the writer shared by the first two programs.

    Go maps are [gmap]s, Go strings are [string]s (one character per byte),
    byte slices are [list byte].  A Go function that may panic or end the
    process returns an [outcome]. *)

From Stdlib Require Import ZArith List Strings.String Strings.Ascii Strings.Byte DecimalString Lia Permutation.
From stdpp Require Import base gmap strings list fin_maps.

Local Open Scope string_scope.
Local Open Scope list_scope.
Local Open Scope Z_scope.

(** ** Outcomes of Go calls *)

(** A call returns, panics (a failed type assertion), or ends the whole
    process through [log.Fatalf]. *)
Inductive outcome (A : Type) : Type :=
  | Returns (a : A)
  | Panics
  | Fatal (msg : string).
Arguments Returns {A} a.
Arguments Panics {A}.
Arguments Fatal {A} msg.

#[global] Instance outcome_ret : MRet outcome := fun _ a => Returns a.

#[global] Instance outcome_bind : MBind outcome := fun _ _ k m =>
  match m with
  | Returns a => k a
  | Panics => Panics
  | Fatal msg => Fatal msg
  end.

(** A Go result pair [(value, error)]: exactly one side is meaningful. *)
Inductive result (A : Type) : Type :=
  | Ok (a : A)
  | Err (e : string).
Arguments Ok {A} a.
Arguments Err {A} e.

(** ** The protocol library's cell type *)

(** [gosnmp.Asn1BER], the wire type tag of a cell. *)
Inductive Asn1BER : Type :=
  | EndOfContents | Boolean | Integer | BitString | OctetString | Null
  | ObjectIdentifier | ObjectDescription | IPAddress | Counter32 | Gauge32
  | TimeTicks | Opaque | NsapAddress | Counter64 | Uinteger32
  | NoSuchObject | NoSuchInstance | EndOfMibView.

#[global] Instance Asn1BER_eq_dec : EqDecision Asn1BER.
Proof. solve_decision. Defined.

(** The dynamic value held by [SnmpPDU.Value] (an [interface{}]): nothing,
    a byte slice, an integer of any width, a string or a boolean.  The
    floating-point values of the two opaque float tags are left out. *)
Inductive GoValue : Type :=
  | VNil
  | VBytes (data : list byte)
  | VInt (n : Z)
  | VString (s : string)
  | VBool (b : bool).

Record SnmpPDU : Type := mkPDU {
  Name : string;
  PduType : Asn1BER;
  Value : GoValue
}.

(** ** Formatting helpers of the Go library *)

Definition decimal (n : Z) : string := NilZero.string_of_int (Z.to_int n).

Definition hextable : string := "0123456789abcdef".

Definition hexdigit (n : N) : ascii :=
  match String.get (N.to_nat n) hextable with
  | Some c => c
  | None => "0"%char
  end.

(** A character of the lowercase hexadecimal alphabet. *)
Definition lowerHex (c : ascii) : Prop :=
  exists i, String.get i hextable = Some c.

(** [hex.EncodeToString]: [hextable[v>>4]] then [hextable[v&0x0f]] per byte. *)
Fixpoint EncodeToString (src : list byte) : string :=
  match src with
  | [] => ""
  | v :: rest =>
      String (hexdigit (N.shiftr (Byte.to_N v) 4))
        (String (hexdigit (N.land (Byte.to_N v) 15)) (EncodeToString rest))
  end.

Fixpoint joinWith (sep : string) (parts : list string) : string :=
  match parts with
  | [] => ""
  | [p] => p
  | p :: rest => p +:+ sep +:+ joinWith sep rest
  end.

(** [fmt.Sprintf("%v", v)]. *)
Definition Sprintf_v (v : GoValue) : string :=
  match v with
  | VNil => "<nil>"
  | VBytes data => "[" +:+ joinWith " " (map (fun b => decimal (Z.of_N (Byte.to_N b))) data) +:+ "]"
  | VInt n => decimal n
  | VString s => s
  | VBool true => "true"
  | VBool false => "false"
  end.

(** [strings.HasPrefix(s, prefix)]. *)
Definition HasPrefix (s pre : string) : bool := String.prefix pre s.

(** [strings.Split(s, ".")]: one more part than there are dots. *)
Fixpoint splitDots (s : string) : list string :=
  match s with
  | EmptyString => [""]
  | String c rest =>
      if Ascii.eqb c "."%char then "" :: splitDots rest
      else match splitDots rest with
           | p :: ps => String c p :: ps
           | [] => [String c ""]
           end
  end.

(** The items of a list in the order of their first occurrence, skipping
    those already [seen]. *)
Fixpoint firstSeen {A : Type} `{EqDecision A} (seen items : list A) : list A :=
  match items with
  | [] => []
  | item :: rest =>
      if decide (item ∈ seen) then firstSeen seen rest
      else item :: firstSeen (item :: seen) rest
  end.

(** ** The session layer seen from the collector *)

(** What one target answers: whether [Connect] fails, and the replies to
    [Get] and [WalkAll]. *)
Record GoSNMP : Type := mkSession {
  Connect : option string;
  Get : list string -> result (list SnmpPDU);
  WalkAll : string -> result (list SnmpPDU)
}.

(** The network maps a target and a community string to its agent; a target
    polled twice answers the same both times. *)
Definition Network : Type := string -> string -> GoSNMP.

(** A cell is well typed when an octet-string tag comes with a byte slice,
    as the protocol library builds it. *)
Definition wellTyped (variable : SnmpPDU) : Prop :=
  PduType variable = OctetString -> exists data, Value variable = VBytes data.

#[global] Instance wellTyped_dec (variable : SnmpPDU) : Decision (wellTyped variable).
Proof.
  unfold wellTyped.
  destruct (decide (PduType variable = OctetString)) as [Hty|Hty].
  - destruct (Value variable) as [|data|n|s|b].
    + right. intros H. destruct (H Hty) as [d Hd]. discriminate.
    + left. intros _. exists data. reflexivity.
    + right. intros H. destruct (H Hty) as [d Hd]. discriminate.
    + right. intros H. destruct (H Hty) as [d Hd]. discriminate.
    + right. intros H. destruct (H Hty) as [d Hd]. discriminate.
  - left. intros H. contradiction.
Defined.

Definition wellTypedReply (r : result (list SnmpPDU)) : Prop :=
  match r with
  | Ok cells => Forall wellTyped cells
  | Err _ => True
  end.

(** ** The first program: heuristic decoder, rows closed by [hasAllKeys] *)

Module Hex.

Definition lldpLocChassisID : string := ".1.0.8802.1.1.2.1.3.2.0".
Definition lldpLocSysName : string := ".1.0.8802.1.1.2.1.3.3.0".
Definition lldpLocPortDesc : string := ".1.0.8802.1.1.2.1.3.7.1.3".
Definition sysDesc : string := ".1.3.6.1.2.1.1.1.0".
Definition sysVendor : string := ".1.3.6.1.4.1.8072.3.2.10".
Definition lldpRemChassisID : string := ".1.0.8802.1.1.2.1.4.1.1.5".
Definition lldpRemPortID : string := ".1.0.8802.1.1.2.1.4.1.1.7".
Definition lldpRemPortDesc : string := ".1.0.8802.1.1.2.1.4.1.1.8".
Definition lldpRemSysName : string := ".1.0.8802.1.1.2.1.4.1.1.9".
Definition lldpRemSysCap : string := ".1.0.8802.1.1.2.1.4.1.1.12".
Definition lldpRemMgmtAddress : string := ".1.0.8802.1.1.2.1.4.2.1.4".
Definition lldpRemTable : string := ".1.0.8802.1.1.2.1.4.1".

(** The loop body's test: [(b < 32 || b > 126) && b != 10 && b != 13]. *)
Definition nonPrintable (b : byte) : bool :=
  let n := Byte.to_N b in
  (((n <? 32) || (126 <? n)) && negb (n =? 10) && negb (n =? 13))%N.

Fixpoint countFrom (nonPrintableCount : Z) (data : list byte) : Z :=
  match data with
  | [] => nonPrintableCount
  | b :: rest =>
      countFrom (if nonPrintable b then nonPrintableCount + 1 else nonPrintableCount) rest
  end.

Definition nonPrintableCount (data : list byte) : Z := countFrom 0 data.

(** [return nonPrintableCount < len(data)/10], Go's truncating division. *)
Definition isMostlyPrintable (data : list byte) : bool :=
  nonPrintableCount data <? Z.quot (Z.of_nat (length data)) 10.

(** The type assertion [variable.Value.([]byte)] panics on any other
    dynamic type, the nil interface included. *)
Definition parseSNMPVariable (variable : SnmpPDU) : outcome string :=
  match PduType variable with
  | OctetString =>
      match Value variable with
      | VBytes value =>
          if isMostlyPrintable value then Returns (string_of_list_byte value)
          else Returns (EncodeToString value)
      | _ => Panics
      end
  | _ =>
      match Value variable with
      | VNil => Returns "<nil>"
      | v => Returns (Sprintf_v v)
      end
  end.

(** The [switch variable.Name] of the local fetch: exact matches. *)
Definition localLabel (name : string) : option string :=
  if String.eqb name lldpLocChassisID then Some "Local Chassis ID"
  else if String.eqb name lldpLocSysName then Some "Local System Name"
  else if String.eqb name lldpLocPortDesc then Some "Local Port Description"
  else if String.eqb name sysDesc then Some "System Description"
  else if String.eqb name sysVendor then Some "System Vendor"
  else None.

Fixpoint localLoop (result : gmap string string) (variables : list SnmpPDU)
  : outcome (gmap string string) :=
  match variables with
  | [] => Returns result
  | variable :: rest =>
      value ← parseSNMPVariable variable;
      localLoop (match localLabel (Name variable) with
                 | Some label => <[label := value]> result
                 | None => result
                 end) rest
  end.

Definition fetchLocalLLDP (snmp : GoSNMP) : outcome (result (gmap string string)) :=
  match Get snmp [lldpLocChassisID; lldpLocSysName; lldpLocPortDesc; sysDesc; sysVendor] with
  | Err err => Returns (Err ("error getting local LLDP info: " +:+ err))
  | Ok variables => info ← localLoop ∅ variables; Returns (Ok info)
  end.

(** The [switch] of the remote fetch: the first matching prefix wins. *)
Definition remoteLabel (name : string) : option string :=
  if HasPrefix name lldpRemChassisID then Some "Remote Chassis ID"
  else if HasPrefix name lldpRemPortID then Some "Remote Port ID"
  else if HasPrefix name lldpRemPortDesc then Some "Remote Port Description"
  else if HasPrefix name lldpRemSysName then Some "Remote System Name"
  else if HasPrefix name lldpRemSysCap then Some "Remote System Capabilities"
  else if HasPrefix name lldpRemMgmtAddress then Some "Remote Management Address"
  else None.

Definition requiredKeys : list string :=
  [ "Remote Chassis ID"; "Remote Port ID"; "Remote Port Description";
    "Remote System Name"; "Remote System Capabilities";
    "Remote Management Address" ].

Fixpoint allPresent (keys : list string) (data : gmap string string) : bool :=
  match keys with
  | [] => true
  | key :: rest =>
      match data !! key with
      | None => false
      | Some _ => allPresent rest data
      end
  end.

Definition hasAllKeys (data : gmap string string) : bool :=
  allPresent requiredKeys data.

(** [current[label] = value] for the matching case, nothing otherwise. *)
Definition assign (name value : string) (current : gmap string string)
  : gmap string string :=
  match remoteLabel name with
  | Some label => <[label := value]> current
  | None => current
  end.

(** The loop state: the records appended so far and the row being filled. *)
Definition walkState : Type := list (gmap string string) * gmap string string.

Definition walkStep (st : walkState) (variable : SnmpPDU) : outcome walkState :=
  value ← parseSNMPVariable variable;
  let current := assign (Name variable) value st.2 in
  if hasAllKeys current then Returns (st.1 ++ [current], ∅)
  else Returns (st.1, current).

Fixpoint walkLoop (st : walkState) (remoteInfo : list SnmpPDU) : outcome walkState :=
  match remoteInfo with
  | [] => Returns st
  | variable :: rest => st' ← walkStep st variable; walkLoop st' rest
  end.

(** The lines this function logs for diagnosis are not part of its result and
    are left out. *)
Definition fetchRemoteLLDP (snmp : GoSNMP)
  : outcome (result (list (gmap string string))) :=
  match WalkAll snmp lldpRemTable with
  | Err err => Returns (Err ("error getting remote LLDP info: " +:+ err))
  | Ok remoteInfo =>
      st ← walkLoop ([], ∅) remoteInfo;
      if decide (0 < size st.2)%nat then Returns (Ok (st.1 ++ [st.2]))
      else Returns (Ok st.1)
  end.

(** The state of [main]'s loop: both result maps and the lines [main] itself
    has logged. *)
Record batchState : Type := mkBatch {
  allLocalInfo : gmap string (gmap string string);
  allRemoteInfo : gmap string (list (gmap string string));
  logged : list string
}.

Definition logLine (line : string) (st : batchState) : batchState :=
  mkBatch (allLocalInfo st) (allRemoteInfo st) (logged st ++ [line]).

Definition initializeSNMP (net : Network) (target community : string) : outcome GoSNMP :=
  match Connect (net target community) with
  | Some err => Fatal ("Error connecting to target " +:+ target +:+ ": " +:+ err)
  | None => Returns (net target community)
  end.

Definition mainStep (net : Network) (st : batchState) (record : list string)
  : outcome batchState :=
  match record with
  | target :: community :: _ =>
      snmp ← initializeSNMP net target community;
      localInfo ← fetchLocalLLDP snmp;
      match localInfo with
      | Err err =>
          Returns (logLine ("Error fetching local LLDP info for " +:+ target +:+ ": " +:+ err) st)
      | Ok localInfo =>
          remoteInfo ← fetchRemoteLLDP snmp;
          match remoteInfo with
          | Err err =>
              Returns (logLine ("Error fetching remote LLDP info for " +:+ target +:+ ": " +:+ err) st)
          | Ok remoteInfo =>
              Returns (mkBatch (<[target := localInfo]> (allLocalInfo st))
                               (<[target := remoteInfo]> (allRemoteInfo st))
                               (logged st))
          end
      end
  | _ =>
      Returns (logLine ("Skipping invalid record: [" +:+ joinWith " " record +:+ "]") st)
  end.

Fixpoint mainLoop (net : Network) (st : batchState) (records : list (list string))
  : outcome batchState :=
  match records with
  | [] => Returns st
  | record :: rest => st' ← mainStep net st record; mainLoop net st' rest
  end.

(** [main] up to the call of the writer: the maps handed to it. *)
Definition main (net : Network) (input : result (list (list string))) : outcome batchState :=
  match input with
  | Err err => Fatal ("Error reading input CSV file: " +:+ err)
  | Ok records => mainLoop net (mkBatch ∅ ∅ []) records
  end.

End Hex.

(** ** The second program: a row is closed by its capabilities cell *)

Module Caps.

Definition lldpRemChassisID : string := ".1.0.8802.1.1.2.1.4.1.1.5".
Definition lldpRemPortID : string := ".1.0.8802.1.1.2.1.4.1.1.7".
Definition lldpRemPortDesc : string := ".1.0.8802.1.1.2.1.4.1.1.8".
Definition lldpRemSysName : string := ".1.0.8802.1.1.2.1.4.1.1.9".
Definition lldpRemSysCap : string := ".1.0.8802.1.1.2.1.4.1.1.12".
Definition lldpRemTable : string := ".1.0.8802.1.1.2.1.4.1".

Definition parseSNMPVariable (variable : SnmpPDU) : outcome string :=
  match PduType variable with
  | OctetString =>
      match Value variable with
      | VBytes value => Returns (string_of_list_byte value)
      | _ => Panics
      end
  | _ => Returns (Sprintf_v (Value variable))
  end.

Definition walkState : Type := list (gmap string string) * gmap string string.

Definition walkStep (st : walkState) (variable : SnmpPDU) : outcome walkState :=
  value ← parseSNMPVariable variable;
  let name := Name variable in
  if HasPrefix name lldpRemChassisID then Returns (st.1, <["Remote Chassis ID" := value]> st.2)
  else if HasPrefix name lldpRemPortID then Returns (st.1, <["Remote Port ID" := value]> st.2)
  else if HasPrefix name lldpRemPortDesc then Returns (st.1, <["Remote Port Description" := value]> st.2)
  else if HasPrefix name lldpRemSysName then Returns (st.1, <["Remote System Name" := value]> st.2)
  else if HasPrefix name lldpRemSysCap then
    Returns (st.1 ++ [<["Remote System Capabilities" := value]> st.2], ∅)
  else Returns st.

Fixpoint walkLoop (st : walkState) (remoteInfo : list SnmpPDU) : outcome walkState :=
  match remoteInfo with
  | [] => Returns st
  | variable :: rest => st' ← walkStep st variable; walkLoop st' rest
  end.

Definition fetchRemoteLLDP (snmp : GoSNMP)
  : outcome (result (list (gmap string string))) :=
  match WalkAll snmp lldpRemTable with
  | Err err => Returns (Err ("error getting remote LLDP info: " +:+ err))
  | Ok remoteInfo => st ← walkLoop ([], ∅) remoteInfo; Returns (Ok st.1)
  end.

End Caps.

(** ** The third program: nested maps keyed by identifier components *)

Module Indexed.

Definition lldpRemTable : string := ".1.0.8802.1.1.2.1.4.1".

Definition parseSNMPVariable (variable : SnmpPDU) : outcome string :=
  match PduType variable with
  | OctetString =>
      match Value variable with
      | VBytes value => Returns (string_of_list_byte value)
      | _ => Panics
      end
  | _ => Returns (Sprintf_v (Value variable))
  end.

Definition parseOID (oid : string) : list string := splitDots oid.

(** [id] and [subOid] of a cell name, or nothing when the loop takes its
    [continue].  Both indices are in range once the length test passed. *)
Definition rowKey (name : string) : option (string * string) :=
  let oidParts := parseOID name in
  if (length oidParts <? 3)%nat then None
  else Some (nth (length oidParts - 3) oidParts "",
             nth (length oidParts - 2) oidParts "").

Definition walkStep (result : gmap string (gmap string string)) (variable : SnmpPDU)
  : outcome (gmap string (gmap string string)) :=
  match rowKey (Name variable) with
  | None => Returns result
  | Some (id, subOid) =>
      let result :=
        match result !! id with
        | Some _ => result
        | None => <[id := ∅]> result
        end in
      value ← parseSNMPVariable variable;
      Returns (<[id := <[subOid := value]> (default ∅ (result !! id))]> result)
  end.

Fixpoint walkLoop (result : gmap string (gmap string string)) (remoteInfo : list SnmpPDU)
  : outcome (gmap string (gmap string string)) :=
  match remoteInfo with
  | [] => Returns result
  | variable :: rest => result' ← walkStep result variable; walkLoop result' rest
  end.

Definition fetchRemoteLLDP (snmp : GoSNMP)
  : outcome (result (gmap string (gmap string string))) :=
  match WalkAll snmp lldpRemTable with
  | Err err => Returns (Err ("error getting remote LLDP info: " +:+ err))
  | Ok remoteInfo => info ← walkLoop ∅ remoteInfo; Returns (Ok info)
  end.

Definition lldpLocChassisID : string := ".1.0.8802.1.1.2.1.3.2.0".
Definition lldpLocSysName : string := ".1.0.8802.1.1.2.1.3.3.0".

(** The local fetch stores every cell of the reply under its own name. *)
Fixpoint localLoop (result : gmap string string) (variables : list SnmpPDU)
  : outcome (gmap string string) :=
  match variables with
  | [] => Returns result
  | variable :: rest =>
      value ← parseSNMPVariable variable;
      localLoop (<[Name variable := value]> result) rest
  end.

Definition fetchLocalLLDP (snmp : GoSNMP) : outcome (result (gmap string string)) :=
  match Get snmp [lldpLocChassisID; lldpLocSysName] with
  | Err err => Returns (Err ("error getting local LLDP info: " +:+ err))
  | Ok variables => info ← localLoop ∅ variables; Returns (Ok info)
  end.

(** A [for k, v := range m] loop: Go leaves the order of the entries
    unspecified, so the loop's output is any concatenation of the body's
    outputs over some enumeration of the map. *)
Definition rangeMap {V B : Type} (m : gmap string V)
    (body : string -> V -> list B -> Prop) (out : list B) : Prop :=
  exists (order : list (string * V)) (blocks : list (list B)),
    order ≡ₚ map_to_list m /\
    Forall2 (fun kv block => body kv.1 kv.2 block) order blocks /\
    out = concat blocks.

Definition remoteRows (remoteInfo : gmap string (gmap string (gmap string string)))
  : list (list string) -> Prop :=
  rangeMap remoteInfo (fun target info =>
    rangeMap info (fun id subInfo =>
      rangeMap subInfo (fun oid value rows =>
        rows = [["Remote"; target; id; oid; value]]))).

Definition localRows (localInfo : gmap string (gmap string string))
  : list (list string) -> Prop :=
  rangeMap localInfo (fun target info =>
    rangeMap info (fun oid value rows =>
      rows = [["Local"; target; ""; oid; value]])).

(** The rows [writeBatchCSV] hands to the CSV writer, header first. *)
Definition writeBatchCSV (localInfo : gmap string (gmap string string))
    (remoteInfo : gmap string (gmap string (gmap string string)))
    (rows : list (list string)) : Prop :=
  exists locals remotes,
    localRows localInfo locals /\ remoteRows remoteInfo remotes /\
    rows = ["Type"; "Target"; "ID"; "OID"; "Value"] :: locals ++ remotes.

(** The row identities of a walk, each at its first occurrence. *)
Definition discoveryOrder (remoteInfo : list SnmpPDU) : list string :=
  firstSeen [] (omap (fun variable => fst <$> rowKey (Name variable)) remoteInfo).

(** The ID column of a remote row. *)
Definition rowId (row : list string) : option string :=
  match row with
  | "Remote" :: _ :: id :: _ => Some id
  | _ => None
  end.

(** The ID column of the remote rows written, repeats collapsed. *)
Definition emittedIds (rows : list (list string)) : list string :=
  firstSeen [] (omap rowId rows).

End Indexed.

(** ** The writer of the first and second programs *)

Module Report.

(** The rows of one record: one per entry, in the map's iteration order. *)
Definition recordRows (kind target : string) (info : gmap string string)
  : list (list string) -> Prop :=
  Indexed.rangeMap info (fun desc value rows => rows = [[kind; target; desc; value]]).

(** [for _, info := range infos]: the records of a slice, in slice order. *)
Definition sliceRows (target : string) (infos : list (gmap string string))
    (out : list (list string)) : Prop :=
  exists blocks,
    Forall2 (fun info block => recordRows "Remote" target info block) infos blocks /\
    out = concat blocks.

(** The writer's result: the error of [os.Create] when the file cannot be
    created, else the rows handed to the CSV writer, header first. *)
Definition writeBatchCSV (created : option string)
    (localInfo : gmap string (gmap string string))
    (remoteInfo : gmap string (list (gmap string string)))
    (out : result (list (list string))) : Prop :=
  match created with
  | Some err => out = Err err
  | None =>
      exists locals remotes,
        Indexed.rangeMap localInfo (recordRows "Local") locals /\
        Indexed.rangeMap remoteInfo sliceRows remotes /\
        out = Ok (["Type"; "Target"; "Description"; "Value"] :: locals ++ remotes)
  end.

End Report.

(** ** Vocabulary of the statements *)

(** The accumulator holds every label of the required set. *)
Definition holdsAllLabels (data : gmap string string) : Prop :=
  forall key, key ∈ Hex.requiredKeys -> is_Some (data !! key).

(** The string a cell decodes to, when the decoder returns one. *)
Definition decoded (variable : SnmpPDU) : string :=
  match Hex.parseSNMPVariable variable with
  | Returns value => value
  | _ => ""
  end.

(** The record one neighbor's cells build from an empty accumulator. *)
Definition fill (group : list SnmpPDU) : gmap string string :=
  foldl (fun current variable => Hex.assign (Name variable) (decoded variable) current)
        ∅ group.

(** What the loop maintains: every record already appended holds the whole
    required set, the row being filled does not, and no key is foreign. *)
Definition loopInvariant (st : Hex.walkState) : Prop :=
  Forall holdsAllLabels st.1 /\
  ~ holdsAllLabels st.2 /\
  Forall (fun record : gmap string string =>
            forall key, is_Some (record !! key) -> key ∈ Hex.requiredKeys) (st.2 :: st.1).

(** The string a cell decodes to in the third program. *)
Definition decodedPlain (variable : SnmpPDU) : string :=
  match Indexed.parseSNMPVariable variable with
  | Returns value => value
  | _ => ""
  end.

(** The effect of one cell on the nested map, once its value is decoded. *)
Definition put (variable : SnmpPDU) (info : gmap string (gmap string string))
  : gmap string (gmap string string) :=
  match Indexed.rowKey (Name variable) with
  | None => info
  | Some (id, subOid) =>
      <[id := <[subOid := decodedPlain variable]> (default ∅ (info !! id))]> info
  end.




(** The identifiers the local fetch asks for. *)
Definition localOids : list string :=
  [Hex.lldpLocChassisID; Hex.lldpLocSysName; Hex.lldpLocPortDesc; Hex.sysDesc; Hex.sysVendor].

(** A record names a target whose get and walk both get a reply. *)
Definition answers (net : Network) (record : list string) : bool :=
  match record with
  | target :: community :: _ =>
      match Get (net target community) localOids,
            WalkAll (net target community) Hex.lldpRemTable with
      | Ok _, Ok _ => true
      | _, _ => false
      end
  | _ => false
  end.

(** Every target named by a record of the batch accepts the connection. *)
Definition connects (net : Network) (records : list (list string)) : Prop :=
  forall target community rest,
    (target :: community :: rest) ∈ records -> Connect (net target community) = None.

(** Every reply of the network is made of well-typed cells. *)
Definition wellTypedNetwork (net : Network) : Prop :=
  forall target community oids root,
    wellTypedReply (Get (net target community) oids) /\
    wellTypedReply (WalkAll (net target community) root).

(** The labels the local fetch of the first program can store. *)
Definition localLabels : list string :=
  [ "Local Chassis ID"; "Local System Name"; "Local Port Description";
    "System Description"; "System Vendor" ].

(** The effect of one reply cell on the local record, once decoded. *)
Definition store (variable : SnmpPDU) (info : gmap string string) : gmap string string :=
  match Hex.localLabel (Name variable) with
  | Some label => <[label := decoded variable]> info
  | None => info
  end.

(** The value under [key] was decoded from a cell of [pool] whose name
    carries the prefix of [key]. *)
Definition comesFrom (pool : list SnmpPDU) (key value : string) : Prop :=
  exists variable,
    variable ∈ pool /\
    Hex.remoteLabel (Name variable) = Some key /\
    Hex.parseSNMPVariable variable = Returns value.

(** A cell whose name carries the prefix of a tracked remote column. *)
Definition tracked (variable : SnmpPDU) : Prop :=
  is_Some (Hex.remoteLabel (Name variable)).

(** A cell that closes a row in the second program: its name carries the
    capabilities prefix. *)
Definition closesCapsRow (variable : SnmpPDU) : Prop :=
  HasPrefix (Name variable) Caps.lldpRemSysCap = true.

(** The labels a row of the second program can hold before it is closed. *)
Definition capsOpenLabels : list string :=
  [ "Remote Chassis ID"; "Remote Port ID"; "Remote Port Description";
    "Remote System Name" ].

(** The number of dots of an identifier. *)
Fixpoint dots (s : string) : nat :=
  match s with
  | EmptyString => 0
  | String c rest => if Ascii.eqb c "."%char then S (dots rest) else dots rest
  end.

(** A cell the third program does not skip. *)
Definition keyed (variable : SnmpPDU) : Prop :=
  is_Some (Indexed.rowKey (Name variable)).

(** The rows of the third program's output in one fixed order: the entries
    of every map enumerated by [map_to_list]. *)
Definition localRowsOf (localInfo : gmap string (gmap string string))
  : list (list string) :=
  concat (map (fun ti : string * gmap string string =>
    concat (map (fun ov : string * string => [["Local"; ti.1; ""; ov.1; ov.2]])
                (map_to_list ti.2)))
    (map_to_list localInfo)).

Definition remoteRowsOf (remoteInfo : gmap string (gmap string (gmap string string)))
  : list (list string) :=
  concat (map (fun ti : string * gmap string (gmap string string) =>
    concat (map (fun row : string * gmap string string =>
      concat (map (fun ov : string * string => [["Remote"; ti.1; row.1; ov.1; ov.2]])
                  (map_to_list row.2)))
      (map_to_list ti.2)))
    (map_to_list remoteInfo)).

(** Some record of the batch names [target] and got both replies. *)
Definition polled (net : Network) (records : list (list string)) (target : string) : Prop :=
  exists community rest,
    (target :: community :: rest) ∈ records /\
    answers net (target :: community :: rest) = true.

(** ** Sample walks *)

(** An octet-string cell of column [column] for the row [index]. *)
Definition cell (column index payload : string) : SnmpPDU :=
  mkPDU (column +:+ index) OctetString (VBytes (list_byte_of_string payload)).

(** All six tracked cells of one neighbor. *)
Definition fullNeighbor (index tag : string) : list SnmpPDU :=
  [ cell Hex.lldpRemChassisID index ("chassis-of-" +:+ tag);
    cell Hex.lldpRemPortID index ("port-id-of-" +:+ tag);
    cell Hex.lldpRemPortDesc index ("port-desc-of-" +:+ tag);
    cell Hex.lldpRemSysName index ("sys-name-of-" +:+ tag);
    cell Hex.lldpRemSysCap index ("capabilities-of-" +:+ tag);
    cell Hex.lldpRemMgmtAddress index ("address-of-" +:+ tag) ].

(** The same neighbor without its port description. *)
Definition shortNeighbor (index tag : string) : list SnmpPDU :=
  [ cell Hex.lldpRemChassisID index ("chassis-of-" +:+ tag);
    cell Hex.lldpRemPortID index ("port-id-of-" +:+ tag);
    cell Hex.lldpRemSysName index ("sys-name-of-" +:+ tag);
    cell Hex.lldpRemSysCap index ("capabilities-of-" +:+ tag);
    cell Hex.lldpRemMgmtAddress index ("address-of-" +:+ tag) ].

(** The five cells a walk of the remote table delivers for one neighbor: the
    management address belongs to another table. *)
Definition tableNeighbor (index tag : string) : list SnmpPDU :=
  [ cell Hex.lldpRemChassisID index ("chassis-of-" +:+ tag);
    cell Hex.lldpRemPortID index ("port-id-of-" +:+ tag);
    cell Hex.lldpRemPortDesc index ("port-desc-of-" +:+ tag);
    cell Hex.lldpRemSysName index ("sys-name-of-" +:+ tag);
    cell Hex.lldpRemSysCap index ("capabilities-of-" +:+ tag) ].

(** The same without a port description. *)
Definition tableNeighborShort (index tag : string) : list SnmpPDU :=
  [ cell Hex.lldpRemChassisID index ("chassis-of-" +:+ tag);
    cell Hex.lldpRemPortID index ("port-id-of-" +:+ tag);
    cell Hex.lldpRemSysName index ("sys-name-of-" +:+ tag);
    cell Hex.lldpRemSysCap index ("capabilities-of-" +:+ tag) ].

(** The cells of [tableNeighbor ".0.1.1" "one"] and of
    [tableNeighborShort ".0.2.1" "two"] in ascending identifier order, as a
    walk returns them: column by column, row by row inside a column. *)
Definition twoNeighborsWalk : list SnmpPDU :=
  [ cell Hex.lldpRemChassisID ".0.1.1" "chassis-of-one";
    cell Hex.lldpRemChassisID ".0.2.1" "chassis-of-two";
    cell Hex.lldpRemPortID ".0.1.1" "port-id-of-one";
    cell Hex.lldpRemPortID ".0.2.1" "port-id-of-two";
    cell Hex.lldpRemPortDesc ".0.1.1" "port-desc-of-one";
    cell Hex.lldpRemSysName ".0.1.1" "sys-name-of-one";
    cell Hex.lldpRemSysName ".0.2.1" "sys-name-of-two";
    cell Hex.lldpRemSysCap ".0.1.1" "capabilities-of-one";
    cell Hex.lldpRemSysCap ".0.2.1" "capabilities-of-two" ].

(** An agent that connects and answers every walk with [cells]. *)
Definition agentWalking (cells : list SnmpPDU) : GoSNMP :=
  mkSession None (fun _ => Ok []) (fun _ => Ok cells).

(** A network of three switches: the first answers, the walk of the second
    times out, the third answers. *)
Definition threeSwitches : Network := fun target _ =>
  if String.eqb target "switch-2"
  then mkSession None (fun _ => Ok []) (fun _ => Err "request timeout (after 1 retries)")
  else mkSession None
         (fun _ => Ok [mkPDU Hex.lldpLocSysName OctetString
                         (VBytes (list_byte_of_string ("name-of-" +:+ target)))])
         (fun _ => Ok (fullNeighbor ".0.1.1" target)).

(** A network whose first switch refuses the connection. *)
Definition unreachableFirst : Network := fun target _ =>
  if String.eqb target "switch-1"
  then mkSession (Some "dial udp: lookup switch-1: no such host")
         (fun _ => Ok []) (fun _ => Ok [])
  else mkSession None (fun _ => Ok []) (fun _ => Ok (fullNeighbor ".0.1.1" target)).

(** * Properties *)

(** ** The value decoder *)

Section Decoder.

Import Hex.

Lemma countFrom_shift (data : list byte) (k : Z) :
  countFrom k data = k + countFrom 0 data.
Proof.
  revert k. induction data as [|b rest IH]; intros k; simpl.
  - lia.
  - rewrite IH. rewrite (IH (if nonPrintable b then 0 + 1 else 0)).
    destruct (nonPrintable b); lia.
Qed.

Lemma nonPrintableCount_cons (b : byte) (data : list byte) :
  nonPrintableCount (b :: data) =
  (if nonPrintable b then 1 else 0) + nonPrintableCount data.
Proof.
  unfold nonPrintableCount. simpl. rewrite countFrom_shift.
  destruct (nonPrintable b); lia.
Qed.

Lemma nonPrintableCount_bounds (data : list byte) :
  0 <= nonPrintableCount data <= Z.of_nat (length data).
Proof.
  induction data as [|b rest IH].
  - unfold nonPrintableCount. simpl. lia.
  - rewrite nonPrintableCount_cons. simpl length.
    destruct (nonPrintable b); lia.
Qed.

(** The test the code performs, without the division: the payload counts as
    printable exactly when ten times the count, plus ten, fits in the length. *)
Lemma isMostlyPrintable_iff (data : list byte) :
  isMostlyPrintable data = true <->
  10 * nonPrintableCount data + 10 <= Z.of_nat (length data).
Proof.
  unfold isMostlyPrintable. rewrite Z.ltb_lt.
  rewrite Z.quot_div_nonneg by lia.
  pose proof (Z.div_mod (Z.of_nat (length data)) 10 ltac:(lia)) as Hdm.
  pose proof (Z.mod_pos_bound (Z.of_nat (length data)) 10 ltac:(lia)) as Hb.
  lia.
Qed.

(** The hexadecimal half of the decoding rule holds as the specification
    words it: a payload with at least one non-printable byte in ten is
    rendered in hexadecimal. *)
Lemma decode_hex_when_ratio_reached (name : string) (P : list byte) :
  Z.of_nat (length P) <= 10 * nonPrintableCount P ->
  parseSNMPVariable (mkPDU name OctetString (VBytes P)) = Returns (EncodeToString P).
Proof.
  intros Hratio. unfold parseSNMPVariable. simpl.
  destruct (isMostlyPrintable P) eqn:Hp; [|reflexivity].
  apply isMostlyPrintable_iff in Hp. lia.
Qed.

(** The text half holds once the payload is long enough for the truncated
    tenth to exceed the count. *)
Lemma decode_text_when_tenth_exceeds (name : string) (P : list byte) :
  10 * nonPrintableCount P + 10 <= Z.of_nat (length P) ->
  parseSNMPVariable (mkPDU name OctetString (VBytes P)) = Returns (string_of_list_byte P).
Proof.
  intros Hlen. unfold parseSNMPVariable. simpl.
  apply isMostlyPrintable_iff in Hlen. rewrite Hlen. reflexivity.
Qed.

Lemma EncodeToString_length (P : list byte) :
  String.length (EncodeToString P) = (2 * length P)%nat.
Proof.
  induction P as [|b rest IH]; simpl; [reflexivity|]. rewrite IH. lia.
Qed.

Lemma hexdigit_lower (n : N) : (n < 16)%N -> lowerHex (hexdigit n).
Proof.
  intros Hn. exists (N.to_nat n). unfold hexdigit.
  assert (Hm : (N.to_nat n < 16)%nat) by lia.
  generalize dependent (N.to_nat n). intros m Hm.
  do 16 (destruct m as [|m]; [reflexivity|]). lia.
Qed.

Lemma byte_nibbles (b : byte) :
  (N.shiftr (Byte.to_N b) 4 < 16)%N /\ (N.land (Byte.to_N b) 15 < 16)%N.
Proof. destruct b; vm_compute; split; reflexivity. Qed.

Lemma EncodeToString_digits (P : list byte) (i : nat) (c : ascii) :
  String.get i (EncodeToString P) = Some c -> lowerHex c.
Proof.
  revert i. induction P as [|b rest IH]; intros i Hget; simpl in Hget.
  - destruct i; discriminate.
  - destruct i as [|[|i]].
    + injection Hget as <-. apply hexdigit_lower, byte_nibbles.
    + injection Hget as <-. apply hexdigit_lower, byte_nibbles.
    + eapply IH, Hget.
Qed.

(** C1, evaluated on the code: a short, fully printable octet string is not
    returned as text.  The payload "switch-1" has no non-printable byte, so
    its ratio is 0 < 10%, yet the code compares the count with the truncated
    [len/10 = 0] and returns the sixteen hexadecimal digits. *)
Theorem C1_short_printable_payload_hex_encoded :
  let P := list_byte_of_string "switch-1" in
  nonPrintableCount P = 0 /\
  10 * nonPrintableCount P < Z.of_nat (length P) /\
  isMostlyPrintable P = false /\
  parseSNMPVariable (mkPDU lldpLocSysName OctetString (VBytes P))
    = Returns "7377697463682d31".
Proof. vm_compute. repeat split; reflexivity. Qed.

(** C7, as stated, fails on an octet-string cell that carries no value: the
    type assertion comes before any nil test. *)
Lemma C7_octet_string_nil_panics :
  Value (mkPDU lldpLocChassisID OctetString VNil) = VNil /\
  parseSNMPVariable (mkPDU lldpLocChassisID OctetString VNil) <> Returns "<nil>".
Proof. split; [reflexivity|]. vm_compute. discriminate. Qed.

(** C7, amended: a cell of any wire type other than octet string whose value
    is absent decodes to the sentinel. *)
Theorem C7_absent_value_sentinel (variable : SnmpPDU) :
  Value variable = VNil ->
  PduType variable <> OctetString ->
  parseSNMPVariable variable = Returns "<nil>".
Proof.
  intros Hnil Hty. unfold parseSNMPVariable. rewrite Hnil.
  destruct (PduType variable); try reflexivity. congruence.
Qed.

Lemma C7_absent_value_sentinel_witness :
  parseSNMPVariable (mkPDU lldpLocSysName Null VNil) = Returns "<nil>".
Proof.
  apply (C7_absent_value_sentinel (mkPDU lldpLocSysName Null VNil)).
  - reflexivity.
  - simpl. discriminate.
Defined.

(** C8, as stated, fails: decoding an octet-string cell whose value is not a
    byte slice produces no string. *)
Lemma C8_decode_not_total :
  ~ exists s, parseSNMPVariable (mkPDU lldpRemChassisID OctetString (VInt 7)) = Returns s.
Proof. intros [s Hs]. vm_compute in Hs. discriminate. Qed.

(** C8, amended: decoding returns a string for every well-typed cell, that
    is for every cell of a wire type other than octet string, whatever its
    value, and for every octet-string cell holding a byte slice. *)
Theorem C8_decode_total_on_well_typed (variable : SnmpPDU) :
  wellTyped variable ->
  exists s, parseSNMPVariable variable = Returns s.
Proof.
  intros Hwt. unfold parseSNMPVariable.
  destruct (decide (PduType variable = OctetString)) as [Hty|Hty].
  - rewrite Hty. destruct (Hwt Hty) as [data ->].
    destruct (isMostlyPrintable data); eauto.
  - destruct (PduType variable); try congruence; destruct (Value variable); eauto.
Qed.

Lemma C8_decode_total_on_well_typed_witness :
  exists s, parseSNMPVariable (mkPDU lldpRemSysCap Integer VNil) = Returns s.
Proof.
  apply (C8_decode_total_on_well_typed (mkPDU lldpRemSysCap Integer VNil)).
  intros Hty. simpl in Hty. discriminate.
Defined.

(** C9, as stated, fails on the branch taken: the heuristic rejects the
    empty payload ([0 < 0/10] is false). *)
Lemma C9_empty_not_mostly_printable :
  ~ (isMostlyPrintable [] = true /\
     parseSNMPVariable (mkPDU lldpLocSysName OctetString (VBytes [])) = Returns "").
Proof. intros [Hp _]. vm_compute in Hp. discriminate. Qed.

(** C9, amended: a zero-length octet string decodes to the empty string (it
    is the hexadecimal rendering of no bytes). *)
Theorem C9_empty_octet_string (name : string) :
  parseSNMPVariable (mkPDU name OctetString (VBytes [])) = Returns "" /\
  EncodeToString [] = "".
Proof. split; reflexivity. Qed.

End Decoder.

(** ** Completion-driven grouping (first program) *)

Section Completion.

Import Hex.

Lemma allPresent_iff (keys : list string) (data : gmap string string) :
  allPresent keys data = true <-> forall key, key ∈ keys -> is_Some (data !! key).
Proof.
  induction keys as [|k rest IH]; simpl.
  - split; [|reflexivity]. intros _ key Hin. inversion Hin.
  - destruct (data !! k) eqn:Hk.
    + rewrite IH. split.
      * intros Hall key Hin. apply elem_of_cons in Hin as [->|Hin]; eauto.
      * intros Hall key Hin. apply Hall. by right.
    + split; [discriminate|]. intros Hall.
      destruct (Hall k) as [v Hv]; [by left|]. congruence.
Qed.

Lemma hasAllKeys_iff (data : gmap string string) :
  hasAllKeys data = true <-> holdsAllLabels data.
Proof. apply allPresent_iff. Qed.

Lemma hasAllKeys_false_iff (data : gmap string string) :
  hasAllKeys data = false <-> ~ holdsAllLabels data.
Proof.
  rewrite <- hasAllKeys_iff. destruct (hasAllKeys data); split; congruence.
Qed.

Lemma hasAllKeys_empty : hasAllKeys ∅ = false.
Proof. reflexivity. Qed.

Lemma remoteLabel_required (name label : string) :
  remoteLabel name = Some label -> label ∈ requiredKeys.
Proof.
  unfold remoteLabel, requiredKeys.
  repeat (case_match; [intros [= <-]; set_solver|]). discriminate.
Qed.

Lemma parse_decoded (variable : SnmpPDU) (value : string) :
  parseSNMPVariable variable = Returns value -> decoded variable = value.
Proof. unfold decoded. by intros ->. Qed.

Lemma parse_wellTyped (variable : SnmpPDU) :
  wellTyped variable -> parseSNMPVariable variable = Returns (decoded variable).
Proof.
  intros Hwt. unfold decoded.
  destruct (parseSNMPVariable variable) eqn:Hp; try reflexivity.
  - unfold parseSNMPVariable in Hp.
    destruct (decide (PduType variable = OctetString)) as [Hty|Hty].
    + rewrite Hty in Hp. destruct (Hwt Hty) as [data Hd]. rewrite Hd in Hp.
      destruct (isMostlyPrintable data); discriminate.
    + destruct (PduType variable); try congruence; destruct (Value variable); discriminate.
  - unfold parseSNMPVariable in Hp.
    repeat case_match; discriminate.
Qed.

(** One turn of the loop on a cell that decodes. *)
Lemma walkStep_returns (st : walkState) (variable : SnmpPDU) (value : string) :
  parseSNMPVariable variable = Returns value ->
  walkStep st variable =
    Returns (if hasAllKeys (assign (Name variable) value st.2)
             then (st.1 ++ [assign (Name variable) value st.2], ∅)
             else (st.1, assign (Name variable) value st.2)).
Proof.
  intros Hp. unfold walkStep. rewrite Hp. simpl.
  by destruct (hasAllKeys _).
Qed.


Lemma walkLoop_total (st : walkState) (cells : list SnmpPDU) :
  Forall wellTyped cells -> exists st', walkLoop st cells = Returns st'.
Proof.
  intros Hwt. revert st. induction Hwt as [|v rest Hv _ IH]; intros st; simpl.
  - eauto.
  - rewrite (walkStep_returns st v _ (parse_wellTyped v Hv)). simpl. apply IH.
Qed.

Lemma assign_keys (name value : string) (current : gmap string string) :
  (forall key, is_Some (current !! key) -> key ∈ requiredKeys) ->
  forall key, is_Some (assign name value current !! key) -> key ∈ requiredKeys.
Proof.
  intros Hcur key. unfold assign.
  destruct (remoteLabel name) as [label|] eqn:Hl; [|apply Hcur].
  destruct (decide (label = key)) as [<-|Hne].
  - intros _. eapply remoteLabel_required, Hl.
  - rewrite lookup_insert_ne by done. apply Hcur.
Qed.

Lemma assign_keeps (name value : string) (current : gmap string string) (key : string) :
  is_Some (current !! key) -> is_Some (assign name value current !! key).
Proof.
  intros Hk. unfold assign. destruct (remoteLabel name) as [label|]; [|done].
  destruct (decide (label = key)) as [<-|Hne].
  - rewrite lookup_insert_eq. eauto.
  - by rewrite lookup_insert_ne.
Qed.

Lemma loopInvariant_init : loopInvariant ([], ∅).
Proof.
  unfold loopInvariant. simpl. split; [constructor|]. split.
  - apply hasAllKeys_false_iff. reflexivity.
  - apply Forall_cons. split; [|constructor].
    intros key [v Hv]. by rewrite lookup_empty in Hv.
Qed.

Lemma walkStep_invariant (st st' : walkState) (variable : SnmpPDU) :
  loopInvariant st -> walkStep st variable = Returns st' -> loopInvariant st'.
Proof.
  intros (Hdone & Hcur & Hkeys) Hstep. unfold walkStep in Hstep.
  destruct (parseSNMPVariable variable) as [value| |msg]; simpl in Hstep; try discriminate.
  apply Forall_cons in Hkeys as [Hk2 Hk1].
  pose proof (assign_keys (Name variable) value _ Hk2) as Hk'.
  destruct (hasAllKeys _) eqn:Hall; injection Hstep as <-;
    unfold loopInvariant; simpl.
  - split; [|split].
    + apply Forall_app. split; [done|].
      apply Forall_cons. split; [by apply hasAllKeys_iff|constructor].
    + apply hasAllKeys_false_iff. reflexivity.
    + constructor.
      * intros key [v Hv]. by rewrite lookup_empty in Hv.
      * apply Forall_app. split; [done|].
        apply Forall_cons. split; [done|constructor].
  - split; [done|]. split.
    + by apply hasAllKeys_false_iff.
    + by constructor.
Qed.

Lemma walkLoop_invariant (cells : list SnmpPDU) (st st' : walkState) :
  loopInvariant st -> walkLoop st cells = Returns st' -> loopInvariant st'.
Proof.
  revert st. induction cells as [|v rest IH]; intros st Hinv Hloop; simpl in Hloop.
  - by injection Hloop as <-.
  - destruct (walkStep st v) as [st1| |msg] eqn:Hstep; simpl in Hloop; try discriminate.
    eapply IH; [|exact Hloop]. eapply walkStep_invariant; eauto.
Qed.



(** C10: every key of every record the completion-driven loop returns is
    one of the six remote labels, and every record but possibly the last
    holds all six. *)
Theorem C10_records_well_formed (snmp : GoSNMP) (remoteInfo : list SnmpPDU) :
  WalkAll snmp lldpRemTable = Ok remoteInfo ->
  Forall wellTyped remoteInfo ->
  exists records,
    fetchRemoteLLDP snmp = Returns (Ok records) /\
    (forall record key,
       record ∈ records -> is_Some (record !! key) -> key ∈ requiredKeys) /\
    (forall i record,
       records !! i = Some record -> (S i < length records)%nat ->
       holdsAllLabels record).
Proof.
  intros Hwalk Hwt.
  destruct (walkLoop_total ([], ∅) remoteInfo Hwt) as [[results current] Hloop].
  destruct (walkLoop_invariant _ _ _ loopInvariant_init Hloop) as (Hdone & _ & Hkeys).
  simpl in Hdone, Hkeys. apply Forall_cons in Hkeys as [Hkcur Hkres].
  unfold fetchRemoteLLDP. rewrite Hwalk, Hloop. simpl.
  destruct (decide (0 < size current)%nat) as [Hsz|Hsz]; eexists; (split; [reflexivity|]).
  - split.
    + intros record key Hin. apply elem_of_app in Hin as [Hin|Hin].
      * rewrite Forall_forall in Hkres. by apply Hkres.
      * apply list_elem_of_singleton in Hin as ->. apply Hkcur.
    + intros i record Hi Hlt. rewrite length_app in Hlt. simpl in Hlt.
      rewrite lookup_app_l in Hi by lia.
      rewrite Forall_forall in Hdone. apply Hdone.
      eapply list_elem_of_lookup_2, Hi.
  - split.
    + intros record key Hin. rewrite Forall_forall in Hkres. by apply Hkres.
    + intros i record Hi _. rewrite Forall_forall in Hdone. apply Hdone.
      eapply list_elem_of_lookup_2, Hi.
Qed.

Lemma C10_records_well_formed_witness :
  let walk := fullNeighbor ".0.1.1" "one" ++ fullNeighbor ".0.2.1" "two"
              ++ shortNeighbor ".0.3.1" "three" in
  exists records,
    fetchRemoteLLDP (agentWalking walk) = Returns (Ok records) /\
    (forall record key,
       record ∈ records -> is_Some (record !! key) -> key ∈ requiredKeys) /\
    (forall i record,
       records !! i = Some record -> (S i < length records)%nat ->
       holdsAllLabels record).
Proof.
  apply (C10_records_well_formed
           (agentWalking (fullNeighbor ".0.1.1" "one" ++ fullNeighbor ".0.2.1" "two"
                          ++ shortNeighbor ".0.3.1" "three"))
           (fullNeighbor ".0.1.1" "one" ++ fullNeighbor ".0.2.1" "two"
            ++ shortNeighbor ".0.3.1" "three")).
  - reflexivity.
  - apply (bool_decide_unpack _). vm_compute. reflexivity.
Defined.

(** Filling never removes a label, so a complete accumulator stays complete. *)
Lemma filling_keeps_complete (cells : list SnmpPDU) (current : gmap string string) :
  hasAllKeys current = true ->
  hasAllKeys (foldl (fun cur v => assign (Name v) (decoded v) cur) current cells) = true.
Proof.
  revert current. induction cells as [|v rest IH]; intros current Hall; simpl; [done|].
  apply IH. apply hasAllKeys_iff. intros key Hkey.
  apply assign_keeps. apply hasAllKeys_iff in Hall. by apply Hall.
Qed.

(** While the accumulator stays incomplete the loop only fills it. *)
Lemma walkLoop_filling (cells : list SnmpPDU) (results : list (gmap string string))
    (current : gmap string string) :
  Forall wellTyped cells ->
  hasAllKeys (foldl (fun cur v => assign (Name v) (decoded v) cur) current cells) = false ->
  walkLoop (results, current) cells =
    Returns (results, foldl (fun cur v => assign (Name v) (decoded v) cur) current cells).
Proof.
  intros Hwt. revert current.
  induction Hwt as [|v rest Hv _ IH]; intros current Hfalse; simpl; [done|].
  rewrite (walkStep_returns _ v _ (parse_wellTyped v Hv)). simpl.
  destruct (hasAllKeys (assign (Name v) (decoded v) current)) eqn:Hnow.
  - simpl in Hfalse. rewrite (filling_keeps_complete rest _ Hnow) in Hfalse. discriminate.
  - simpl. apply IH. exact Hfalse.
Qed.

(** C3, evaluated on the code: two neighbors as a walk of the remote table
    delivers them, column by column, the first with its five columns of that
    table and the second without a port description.  Every name lies under
    the table root, so no cell carries the management-address prefix, the
    completion test never holds, and the only record returned is the
    accumulator appended at the end: both neighbors merged, the second
    neighbor's values written over the first's.  Neither neighbor has a
    record of its own, in this order or with the cells neighbor by neighbor. *)
Theorem C3_subtree_walk_merges_neighbors :
  let one := tableNeighbor ".0.1.1" "one" in
  let two := tableNeighborShort ".0.2.1" "two" in
  let merged : gmap string string :=
    list_to_map
      [ ("Remote Chassis ID", "chassis-of-two");
        ("Remote Port ID", "port-id-of-two");
        ("Remote Port Description", "port-desc-of-one");
        ("Remote System Name", "sys-name-of-two");
        ("Remote System Capabilities", "capabilities-of-two") ] in
  forallb (fun variable => HasPrefix (Name variable) lldpRemTable) twoNeighborsWalk = true /\
  fetchRemoteLLDP (agentWalking twoNeighborsWalk) = Returns (Ok [merged]) /\
  fetchRemoteLLDP (agentWalking (one ++ two)) = Returns (Ok [merged]) /\
  (fill one ∉ [merged]) /\
  (fill two ∉ [merged]).
Proof.
  repeat split; try (vm_compute; reflexivity);
    apply (bool_decide_unpack _); vm_compute; reflexivity.
Qed.

End Completion.

(** ** Grouping by identifier components (third program) *)

Section IndexGrouping.

Import Indexed.

Lemma firstSeen_elem {A : Type} `{EqDecision A} (items seen : list A) (x : A) :
  x ∈ firstSeen seen items <-> x ∈ items /\ x ∉ seen.
Proof.
  revert seen. induction items as [|item rest IH]; intros seen; simpl.
  - split; [intros Hin; inversion Hin|intros [Hin _]; inversion Hin].
  - destruct (decide (item ∈ seen)) as [Hseen|Hnew].
    + rewrite IH, elem_of_cons. split; [intros [Hin Hx]; split; [by right|done]|].
      intros [[->|Hin] Hx]; [contradiction|done].
    + rewrite elem_of_cons, IH, !elem_of_cons. split.
      * intros [->|(Hin & Hx)]; [by split; [left|]|].
        split; [by right|]. intros Hs. apply Hx. by right.
      * intros [[->|Hin] Hx]; [by left|].
        destruct (decide (x = item)) as [->|Hne]; [by left|right].
        split; [done|]. intros [?|?]; done.
Qed.

Lemma firstSeen_NoDup {A : Type} `{EqDecision A} (items seen : list A) :
  NoDup (firstSeen seen items).
Proof.
  revert seen. induction items as [|item rest IH]; intros seen; simpl.
  - constructor.
  - destruct (decide (item ∈ seen)); [apply IH|].
    constructor; [|apply IH].
    rewrite firstSeen_elem. intros [_ Hx]. apply Hx. by left.
Qed.

Lemma parsePlain_wellTyped (variable : SnmpPDU) :
  wellTyped variable -> parseSNMPVariable variable = Returns (decodedPlain variable).
Proof.
  intros Hwt. unfold decodedPlain, parseSNMPVariable.
  destruct (decide (PduType variable = OctetString)) as [Hty|Hty].
  - rewrite Hty. by destruct (Hwt Hty) as [data ->].
  - destruct (PduType variable); try congruence; reflexivity.
Qed.

(** One turn of the loop is [put]: creating the empty inner map first does
    not change the map that is stored. *)
Lemma walkStep_put (info : gmap string (gmap string string)) (variable : SnmpPDU) :
  wellTyped variable -> walkStep info variable = Returns (put variable info).
Proof.
  intros Hwt. unfold walkStep, put.
  destruct (rowKey (Name variable)) as [[id subOid]|]; [|reflexivity].
  rewrite (parsePlain_wellTyped _ Hwt). simpl.
  destruct (info !! id) as [record|] eqn:Hid; simpl.
  - by rewrite Hid.
  - by rewrite lookup_insert_eq, insert_insert_eq.
Qed.

Lemma walkLoop_put (cells : list SnmpPDU) (info : gmap string (gmap string string)) :
  Forall wellTyped cells ->
  walkLoop info cells = Returns (foldl (fun acc v => put v acc) info cells).
Proof.
  intros Hwt. revert info. induction Hwt as [|v rest Hv _ IH]; intros info; simpl.
  - reflexivity.
  - rewrite (walkStep_put _ _ Hv). simpl. apply IH.
Qed.

Lemma put_lookup (variable : SnmpPDU) (info : gmap string (gmap string string))
    (id : string) :
  default ∅ (put variable info !! id) =
    match rowKey (Name variable) with
    | Some (id', subOid) =>
        if decide (id' = id)
        then <[subOid := decodedPlain variable]> (default ∅ (info !! id))
        else default ∅ (info !! id)
    | None => default ∅ (info !! id)
    end.
Proof.
  unfold put. destruct (rowKey (Name variable)) as [[id' subOid]|]; [|reflexivity].
  destruct (decide (id' = id)) as [->|Hne].
  - by rewrite lookup_insert_eq.
  - by rewrite lookup_insert_ne.
Qed.

Lemma put_row (variable : SnmpPDU) (info : gmap string (gmap string string))
    (id : string) :
  is_Some (put variable info !! id) <->
  is_Some (info !! id) \/ fst <$> rowKey (Name variable) = Some id.
Proof.
  unfold put. destruct (rowKey (Name variable)) as [[id' subOid]|]; simpl.
  - destruct (decide (id' = id)) as [->|Hne].
    + rewrite lookup_insert_eq. split; eauto.
    + rewrite lookup_insert_ne by done. split; [eauto|].
      intros [?|[= ?]]; [done|congruence].
  - split; [eauto|]. intros [?|?]; [done|discriminate].
Qed.

(** The rows of the returned map: those there at the start and those named
    by some cell. *)
Lemma collected_rows (cells : list SnmpPDU) (info : gmap string (gmap string string))
    (id : string) :
  is_Some (foldl (fun acc v => put v acc) info cells !! id) <->
  is_Some (info !! id) \/
  id ∈ omap (fun variable => fst <$> rowKey (Name variable)) cells.
Proof.
  revert info. induction cells as [|v rest IH]; intros info; simpl.
  - split; [eauto|]. intros [?|Hin]; [done|inversion Hin].
  - rewrite IH, put_row.
    destruct (fst <$> rowKey (Name v)) as [id'|] eqn:Hk; simpl.
    + rewrite elem_of_cons. split.
      * intros [[?|[= ->]]|?]; eauto.
      * intros [?|[->|?]]; eauto.
    + split; [intros [[?|?]|?]; eauto; discriminate|intros [?|?]; eauto].
Qed.


(** No row of the returned map is empty. *)
Lemma collected_nonempty (cells : list SnmpPDU) (info : gmap string (gmap string string)) :
  (forall id record, info !! id = Some record -> record ≠ ∅) ->
  forall id record,
    foldl (fun acc v => put v acc) info cells !! id = Some record -> record ≠ ∅.
Proof.
  revert info. induction cells as [|v rest IH]; intros info Hinfo; simpl; [done|].
  apply IH. intros id record. unfold put.
  destruct (rowKey (Name v)) as [[id' subOid]|]; [|apply Hinfo].
  destruct (decide (id' = id)) as [->|Hne].
  - rewrite lookup_insert_eq. intros [= <-]. apply insert_non_empty.
  - rewrite lookup_insert_ne by done. apply Hinfo.
Qed.

(** The keys of the returned map are the row identities of the walk, each
    once; only their order is lost. *)
Lemma collected_keys (cells : list SnmpPDU) :
  (map_to_list (foldl (fun acc v => put v acc) ∅ cells)).*1 ≡ₚ discoveryOrder cells.
Proof.
  apply NoDup_Permutation.
  - apply NoDup_fst_map_to_list.
  - apply firstSeen_NoDup.
  - intros id. unfold discoveryOrder. rewrite firstSeen_elem.
    rewrite list_elem_of_fmap. split.
    + intros ([id' record] & -> & Hin). apply elem_of_map_to_list in Hin. simpl.
      assert (Hs : is_Some (foldl (fun acc v => put v acc) ∅ cells !! id')) by eauto.
      apply collected_rows in Hs as [[? Hs]|Hs]; [by rewrite lookup_empty in Hs|].
      split; [done|]. intros Hnil. inversion Hnil.
    + intros [Hin _].
      assert (Hs : is_Some (foldl (fun acc v => put v acc) ∅ cells !! id)).
      { apply collected_rows. by right. }
      destruct Hs as [record Hrec]. exists (id, record). split; [done|].
      by apply elem_of_map_to_list.
Qed.




(** Ranging over the empty map runs the body not at all. *)
Lemma rangeMap_empty {V B : Type} (body : string -> V -> list B -> Prop) (out : list B) :
  rangeMap ∅ body out -> out = [].
Proof.
  intros (order & blocks & Hperm & Hall & ->).
  rewrite map_to_list_empty in Hperm. apply Permutation_nil_r in Hperm as ->.
  by apply Forall2_nil_inv_l in Hall as ->.
Qed.

(** Ranging over a one-entry map runs the body once. *)
Lemma rangeMap_singleton {V B : Type} (k : string) (v : V)
    (body : string -> V -> list B -> Prop) (out : list B) :
  rangeMap {[k := v]} body out <-> body k v out.
Proof.
  unfold rangeMap. rewrite map_to_list_singleton. split.
  - intros (order & blocks & Hperm & Hall & ->).
    apply Permutation_singleton_r in Hperm as ->.
    apply Forall2_cons_inv_l in Hall as (block & rest & Hb & Hrest & ->).
    apply Forall2_nil_inv_l in Hrest as ->. simpl. by rewrite app_nil_r.
  - intros Hb. exists [(k, v)], [out]. split; [done|]. split.
    + by repeat constructor.
    + simpl. by rewrite app_nil_r.
Qed.

(** A range loop whose body always has an output has one itself. *)
Lemma rangeMap_runs {V B : Type} (m : gmap string V)
    (body : string -> V -> list B -> Prop) :
  (forall k v, exists block, body k v block) -> exists out, rangeMap m body out.
Proof.
  intros Hbody.
  assert (Hblocks : forall order : list (string * V),
            exists blocks, Forall2 (fun kv block => body kv.1 kv.2 block) order blocks).
  { induction order as [|kv rest [blocks IH]]; [by exists []|].
    destruct (Hbody kv.1 kv.2) as [block Hb]. exists (block :: blocks). by constructor. }
  destruct (Hblocks (map_to_list m)) as [blocks Hall].
  exists (concat blocks), (map_to_list m), blocks. done.
Qed.

(** The rows written for one record all carry its identity, and there is at
    least one when the record is not empty. *)
Lemma record_rows_ids (target id : string) (subInfo : gmap string string)
    (rows : list (list string)) (x : string) :
  subInfo ≠ ∅ ->
  rangeMap subInfo (fun oid value rows => rows = [["Remote"; target; id; oid; value]]) rows ->
  x ∈ omap rowId rows <-> x = id.
Proof.
  intros Hne (order & blocks & Hperm & Hall & ->).
  assert (Hrows : omap rowId (concat blocks) = replicate (length order) id).
  { clear Hperm. induction Hall as [|kv block order' blocks' Hb _ IH]; [done|].
    subst block. rewrite concat_cons, omap_app, IH. reflexivity. }
  rewrite Hrows. destruct order as [|kv order'].
  - apply Permutation_nil_l in Hperm. symmetry in Hperm.
    apply map_to_list_empty_iff in Hperm. done.
  - simpl. rewrite elem_of_cons. split; [|by left].
    intros [->|Hin]; [done|]. by apply elem_of_replicate in Hin as [-> _].
Qed.

(** The identities written for one target are the keys of its map. *)
Lemma target_rows_ids (target : string) (info : gmap string (gmap string string))
    (rows : list (list string)) (x : string) :
  (forall id record, info !! id = Some record -> record ≠ ∅) ->
  rangeMap info (fun id subInfo =>
    rangeMap subInfo (fun oid value rows =>
      rows = [["Remote"; target; id; oid; value]])) rows ->
  x ∈ omap rowId rows <-> x ∈ (map_to_list info).*1.
Proof.
  intros Hne (order & blocks & Hperm & Hall & ->). rewrite <- Hperm.
  assert (Hin : forall kv, kv ∈ order -> kv.2 ≠ ∅).
  { intros [id record] Hkv. rewrite Hperm in Hkv.
    apply elem_of_map_to_list in Hkv. by eapply Hne. }
  clear Hperm. induction Hall as [|kv block order' blocks' Hb _ IH]; [done|].
  simpl. rewrite omap_app, elem_of_app, elem_of_cons.
  rewrite IH by (intros kv' Hkv'; apply Hin; by right).
  rewrite (record_rows_ids _ _ _ _ x (Hin kv ltac:(by left)) Hb). done.
Qed.

(** C4, as stated, fails: the records are kept in a map and written by
    ranging over it, so a run may write the row discovered second before the
    row discovered first. *)
Lemma C4_emission_order_not_discovery_order :
  let walk :=
    [ cell Hex.lldpRemChassisID ".100.1.1" "chassis-of-one";
      cell Hex.lldpRemChassisID ".200.2.1" "chassis-of-two" ] in
  let info : gmap string (gmap string string) :=
    {[ "100" := {[ "1" := "chassis-of-one" ]}; "200" := {[ "2" := "chassis-of-two" ]} ]} in
  let rows :=
    [ ["Type"; "Target"; "ID"; "OID"; "Value"];
      ["Remote"; "switch"; "200"; "2"; "chassis-of-two"];
      ["Remote"; "switch"; "100"; "1"; "chassis-of-one"] ] in
  fetchRemoteLLDP (agentWalking walk) = Returns (Ok info) /\
  writeBatchCSV ∅ {[ "switch" := info ]} rows /\
  discoveryOrder walk = ["100"; "200"] /\
  emittedIds rows = ["200"; "100"] /\
  emittedIds rows ≠ discoveryOrder walk.
Proof.
  intros walk info rows.
  split; [vm_compute; reflexivity|]. split.
  - exists [], [ ["Remote"; "switch"; "200"; "2"; "chassis-of-two"];
                 ["Remote"; "switch"; "100"; "1"; "chassis-of-one"] ].
    split; [|split; [|reflexivity]].
    + exists [], []. rewrite map_to_list_empty. by repeat split.
    + apply rangeMap_singleton.
      exists [ ("200", {[ "2" := "chassis-of-two" ]});
               ("100", {[ "1" := "chassis-of-one" ]}) ],
             [ [["Remote"; "switch"; "200"; "2"; "chassis-of-two"]];
               [["Remote"; "switch"; "100"; "1"; "chassis-of-one"]] ].
      split; [|split; [|reflexivity]].
      * apply NoDup_Permutation.
        -- apply (bool_decide_unpack _). vm_compute. reflexivity.
        -- apply NoDup_map_to_list.
        -- intros [id record]. rewrite elem_of_map_to_list. unfold info.
           rewrite !elem_of_cons, elem_of_nil. split.
           ++ intros [[= -> ->]|[[= -> ->]|[]]]; vm_compute; reflexivity.
           ++ intros Hl. destruct (decide (id = "100")) as [->|H1].
              ** rewrite lookup_insert_eq in Hl. injection Hl as <-. right. by left.
              ** rewrite lookup_insert_ne in Hl by done.
                 apply lookup_singleton_Some in Hl as [<- <-]. by left.
      * repeat constructor; simpl; by apply rangeMap_singleton.
  - split; [vm_compute; reflexivity|]. split; [vm_compute; reflexivity|].
    vm_compute. discriminate.
Qed.

(** C4, amended: for a fixed cell sequence the returned map of records is
    fixed, the writer has an output, and in every output of the writer the
    row identities written are those of the walk, each once: a permutation
    of their first-discovery order.  The order itself is the iteration order
    of the map. *)
Theorem C4_emission_permutes_discovery_order (snmp : GoSNMP)
    (remoteInfo : list SnmpPDU) (target : string) :
  WalkAll snmp lldpRemTable = Ok remoteInfo ->
  Forall wellTyped remoteInfo ->
  exists info,
    fetchRemoteLLDP snmp = Returns (Ok info) /\
    (exists rows, writeBatchCSV ∅ {[ target := info ]} rows) /\
    (forall rows, writeBatchCSV ∅ {[ target := info ]} rows ->
       emittedIds rows ≡ₚ discoveryOrder remoteInfo).
Proof.
  intros Hwalk Hwt. eexists. split.
  { unfold fetchRemoteLLDP. rewrite Hwalk, (walkLoop_put _ _ Hwt). reflexivity. }
  set (info := foldl (fun acc v => put v acc) ∅ remoteInfo).
  split.
  - destruct (rangeMap_runs ({[ target := info ]} : gmap string (gmap string (gmap string string)))
      (fun target info =>
         rangeMap info (fun id subInfo =>
           rangeMap subInfo (fun oid value rows =>
             rows = [["Remote"; target; id; oid; value]])))) as [remotes Hremotes].
    { intros t i. apply rangeMap_runs. intros id subInfo. apply rangeMap_runs. eauto. }
    exists (["Type"; "Target"; "ID"; "OID"; "Value"] :: [] ++ remotes), [], remotes.
    split; [|done]. exists [], []. rewrite map_to_list_empty. by repeat split.
  - intros rows (locals & remotes & Hlocals & Hremotes & ->).
    apply rangeMap_empty in Hlocals as ->.
    apply rangeMap_singleton in Hremotes. simpl.
    rewrite <- (collected_keys remoteInfo). fold info.
    apply NoDup_Permutation.
    + apply firstSeen_NoDup.
    + apply NoDup_fst_map_to_list.
    + intros id. unfold emittedIds. rewrite firstSeen_elem.
      change (omap rowId (["Type"; "Target"; "ID"; "OID"; "Value"] :: remotes))
        with (omap rowId remotes).
      rewrite (target_rows_ids target info remotes id); [|apply collected_nonempty; intros ??; by rewrite lookup_empty|done].
      split; [by intros [? _]|]. intros Hin. split; [done|]. intros Hnil. inversion Hnil.
Qed.

Lemma C4_emission_permutes_discovery_order_witness :
  let walk :=
    [ cell Hex.lldpRemChassisID ".100.1.1" "chassis-of-one";
      cell Hex.lldpRemChassisID ".200.2.1" "chassis-of-two" ] in
  exists info,
    fetchRemoteLLDP (agentWalking walk) = Returns (Ok info) /\
    (exists rows, writeBatchCSV ∅ {[ "switch" := info ]} rows) /\
    (forall rows, writeBatchCSV ∅ {[ "switch" := info ]} rows ->
       emittedIds rows ≡ₚ discoveryOrder walk).
Proof.
  intros walk.
  apply (C4_emission_permutes_discovery_order (agentWalking walk) walk "switch").
  - reflexivity.
  - apply (bool_decide_unpack _). vm_compute. reflexivity.
Defined.

End IndexGrouping.

(** ** The batch loop (first program) *)

Section Batch.

Import Hex.

Lemma localLoop_total (variables : list SnmpPDU) (info : gmap string string) :
  Forall wellTyped variables -> exists info', localLoop info variables = Returns info'.
Proof.
  intros Hwt. revert info. induction Hwt as [|v rest Hv _ IH]; intros info; simpl.
  - eauto.
  - rewrite (parse_wellTyped v Hv). simpl. apply IH.
Qed.

Lemma fetchLocalLLDP_total (snmp : GoSNMP) :
  wellTypedReply (Get snmp localOids) ->
  (exists variables info, Get snmp localOids = Ok variables /\
     fetchLocalLLDP snmp = Returns (Ok info)) \/
  (exists err, Get snmp localOids = Err err /\
     fetchLocalLLDP snmp = Returns (Err ("error getting local LLDP info: " +:+ err))).
Proof.
  intros Hwt. unfold fetchLocalLLDP. fold localOids.
  destruct (Get snmp localOids) as [variables|err]; [left|right; eauto].
  destruct (localLoop_total variables ∅ Hwt) as [info Hinfo].
  exists variables, info. rewrite Hinfo. done.
Qed.

Lemma fetchRemoteLLDP_total (snmp : GoSNMP) :
  wellTypedReply (WalkAll snmp lldpRemTable) ->
  (exists cells records, WalkAll snmp lldpRemTable = Ok cells /\
     fetchRemoteLLDP snmp = Returns (Ok records)) \/
  (exists err, WalkAll snmp lldpRemTable = Err err /\
     fetchRemoteLLDP snmp = Returns (Err ("error getting remote LLDP info: " +:+ err))).
Proof.
  intros Hwt. unfold fetchRemoteLLDP.
  destruct (WalkAll snmp lldpRemTable) as [cells|err]; [left|right; eauto].
  destruct (walkLoop_total ([], ∅) cells Hwt) as [st Hst].
  rewrite Hst. simpl. destruct (decide (0 < size st.2)%nat); eauto.
Qed.

(** One turn of the batch loop, for a record whose target connects: either
    the target answers and both maps get its entry, or the record is
    skipped and one line is logged. *)
Lemma mainStep_cases (net : Network) (record : list string) :
  connects net [record] ->
  wellTypedNetwork net ->
  (answers net record = true /\
   exists target localInfo remoteInfo,
     head record = Some target /\
     forall st, mainStep net st record =
       Returns (mkBatch (<[target := localInfo]> (allLocalInfo st))
                        (<[target := remoteInfo]> (allRemoteInfo st))
                        (logged st))) \/
  (answers net record = false /\
   exists line, forall st, mainStep net st record = Returns (logLine line st)).
Proof.
  intros Hconn Hwt.
  destruct record as [|target [|community rest]]; try (right; split; [done|]; eauto).
  specialize (Hconn target community rest ltac:(by left)).
  destruct (Hwt target community localOids lldpRemTable) as [Hget Hwalk].
  unfold answers, mainStep, initializeSNMP. rewrite Hconn. simpl.
  destruct (fetchLocalLLDP_total _ Hget) as [(vs & info & -> & ->)|(err & -> & ->)]; simpl.
  - destruct (fetchRemoteLLDP_total _ Hwalk) as [(cs & rs & -> & ->)|(err & -> & ->)]; simpl.
    + left. split; [done|]. exists target, info, rs. done.
    + right. split; [done|]. eauto.
  - right. split; [done|]. eauto.
Qed.

Lemma connects_cons (net : Network) (record : list string) (rest : list (list string)) :
  connects net (record :: rest) -> connects net [record] /\ connects net rest.
Proof.
  intros Hconn. split; intros target community tail Hin; apply (Hconn _ _ tail).
  - apply list_elem_of_singleton in Hin as ->. by left.
  - by right.
Qed.

(** The loop run on a batch and the loop run on its answering records
    alone end with the same maps; the first logs one line per other
    record, the second none. *)
Lemma mainLoop_skips (net : Network) (records : list (list string)) (st1 st2 : batchState) :
  connects net records ->
  wellTypedNetwork net ->
  allLocalInfo st1 = allLocalInfo st2 ->
  allRemoteInfo st1 = allRemoteInfo st2 ->
  exists final kept,
    mainLoop net st1 records = Returns final /\
    mainLoop net st2 (filter (fun record => answers net record = true) records)
      = Returns kept /\
    allLocalInfo final = allLocalInfo kept /\
    allRemoteInfo final = allRemoteInfo kept /\
    logged kept = logged st2 /\
    length (logged final) =
      (length (logged st1)
       + length (filter (fun record => answers net record = false) records))%nat.
Proof.
  intros Hconn Hwt. revert st1 st2.
  induction records as [|record rest IH]; intros st1 st2 Hl Hr.
  - exists st1, st2. simpl. repeat split; try done; lia.
  - apply connects_cons in Hconn as [Hone Hrest].
    destruct (mainStep_cases net record Hone Hwt)
      as [(Hans & target & li & ri & _ & Hstep)|(Hans & line & Hstep)].
    + rewrite filter_cons_True by done.
      rewrite (filter_cons_False (fun record => answers net record = false)) by congruence.
      simpl. rewrite !Hstep. simpl.
      destruct (IH Hrest
                  (mkBatch (<[target := li]> (allLocalInfo st1))
                           (<[target := ri]> (allRemoteInfo st1)) (logged st1))
                  (mkBatch (<[target := li]> (allLocalInfo st2))
                           (<[target := ri]> (allRemoteInfo st2)) (logged st2)))
        as (final & kept & H1 & H2 & H3 & H4 & H5 & H6); simpl; [congruence..|].
      exists final, kept. done.
    + rewrite filter_cons_False by congruence.
      rewrite (filter_cons_True (fun record => answers net record = false)) by done.
      simpl. rewrite Hstep. simpl.
      destruct (IH Hrest (logLine line st1) st2) as (final & kept & H1 & H2 & H3 & H4 & H5 & H6);
        [done..|].
      exists final, kept. repeat split; try done.
      rewrite H6. simpl. rewrite length_app. simpl. lia.
Qed.

(** Every answering target of the batch has its entry in both final maps. *)
Lemma mainLoop_entries (net : Network) (records : list (list string))
    (st final : batchState) (target : string) :
  connects net records ->
  wellTypedNetwork net ->
  mainLoop net st records = Returns final ->
  (is_Some (allLocalInfo st !! target) /\ is_Some (allRemoteInfo st !! target)) \/
  (exists community rest,
     (target :: community :: rest) ∈ records /\
     answers net (target :: community :: rest) = true) ->
  is_Some (allLocalInfo final !! target) /\ is_Some (allRemoteInfo final !! target).
Proof.
  intros Hconn Hwt. revert st.
  induction records as [|record rest IH]; intros st Hrun Hfrom; simpl in Hrun.
  - injection Hrun as <-. destruct Hfrom as [?|(c & r & Hin & _)]; [done|inversion Hin].
  - apply connects_cons in Hconn as [Hone Hrest].
    destruct (mainStep_cases net record Hone Hwt)
      as [(Hans & t & li & ri & Hhead & Hstep)|(Hans & line & Hstep)];
      rewrite Hstep in Hrun; simpl in Hrun; apply (IH Hrest _ Hrun).
    + destruct (decide (t = target)) as [->|Hne].
      * left. simpl. rewrite !lookup_insert_eq. eauto.
      * destruct Hfrom as [[Hl Hr]|(c & r & Hin & Hok)].
        -- left. simpl. by rewrite !lookup_insert_ne.
        -- apply elem_of_cons in Hin as [<-|Hin]; [simpl in Hhead; congruence|].
           right. eauto.
    + destruct Hfrom as [?|(c & r & Hin & Hok)]; [by left|].
      apply elem_of_cons in Hin as [<-|Hin]; [congruence|]. right. eauto.
Qed.

(** C6, as stated, fails for a failure to connect: [initializeSNMP] ends the
    process, so the reachable second target is never polled and nothing is
    handed to the writer. *)
Lemma C6_connect_failure_aborts_batch :
  let batch := [["switch-1"; "public"]; ["switch-2"; "public"]] in
  Connect (unreachableFirst "switch-2" "public") = None /\
  answers unreachableFirst ["switch-2"; "public"] = true /\
  main unreachableFirst (Ok batch) =
    Fatal "Error connecting to target switch-1: dial udp: lookup switch-1: no such host" /\
  ~ exists final, main unreachableFirst (Ok batch) = Returns final.
Proof.
  repeat split; try (vm_compute; reflexivity).
  intros [final Hfinal]. vm_compute in Hfinal. discriminate.
Qed.

(** C6, amended: when the targets of a batch accept the connection, a get or
    a walk that fails makes the loop log one line and go on; the run ends
    normally, its maps are those of the run over the answering targets
    alone, and every answering target has its entry in both maps. *)
Theorem C6_failed_queries_skipped (net : Network) (records : list (list string)) :
  connects net records ->
  wellTypedNetwork net ->
  exists final kept,
    main net (Ok records) = Returns final /\
    main net (Ok (filter (fun record => answers net record = true) records))
      = Returns kept /\
    allLocalInfo final = allLocalInfo kept /\
    allRemoteInfo final = allRemoteInfo kept /\
    logged kept = [] /\
    length (logged final) =
      length (filter (fun record => answers net record = false) records) /\
    (forall target community rest,
       (target :: community :: rest) ∈ records ->
       answers net (target :: community :: rest) = true ->
       is_Some (allLocalInfo final !! target) /\
       is_Some (allRemoteInfo final !! target)).
Proof.
  intros Hconn Hwt. unfold main.
  destruct (mainLoop_skips net records (mkBatch ∅ ∅ []) (mkBatch ∅ ∅ []) Hconn Hwt)
    as (final & kept & H1 & H2 & H3 & H4 & H5 & H6); [done..|].
  exists final, kept. repeat split; try done.
  - eapply (mainLoop_entries net records _ final target); eauto.
  - eapply (mainLoop_entries net records _ final target); eauto.
Qed.

Lemma C6_failed_queries_skipped_witness :
  let batch := [["switch-1"; "public"]; ["switch-2"; "public"]; ["switch-3"; "public"]] in
  exists final kept,
    main threeSwitches (Ok batch) = Returns final /\
    main threeSwitches (Ok (filter (fun record => answers threeSwitches record = true) batch))
      = Returns kept /\
    allLocalInfo final = allLocalInfo kept /\
    allRemoteInfo final = allRemoteInfo kept /\
    logged kept = [] /\
    length (logged final) =
      length (filter (fun record => answers threeSwitches record = false) batch) /\
    (forall target community rest,
       (target :: community :: rest) ∈ batch ->
       answers threeSwitches (target :: community :: rest) = true ->
       is_Some (allLocalInfo final !! target) /\
       is_Some (allRemoteInfo final !! target)).
Proof.
  intros batch. apply (C6_failed_queries_skipped threeSwitches batch).
  - intros target community rest _. unfold threeSwitches.
    destruct (String.eqb target "switch-2"); reflexivity.
  - intros target community oids root. unfold threeSwitches.
    destruct (String.eqb target "switch-2"); simpl; split; try exact I;
      apply (bool_decide_unpack _); vm_compute; reflexivity.
Defined.

End Batch.

(** ** The variants side by side *)

Section Variants.

(** A binary chassis identifier is rendered in hexadecimal by the first
    program. *)
Example chassis_identifier_in_hex :
  Hex.parseSNMPVariable
    (mkPDU Hex.lldpLocChassisID OctetString
       (VBytes ["000"; "026"; "043"; "060"; "077"; "094"]%byte))
  = Returns "001a2b3c4d5e".
Proof. vm_compute. reflexivity. Qed.

(** A long enough printable name is returned as text. *)
Example long_name_as_text :
  Hex.parseSNMPVariable
    (mkPDU Hex.lldpLocSysName OctetString (VBytes (list_byte_of_string "core-switch-1")))
  = Returns "core-switch-1".
Proof. vm_compute. reflexivity. Qed.

(** The second program closes a row on its capabilities cell and returns
    the closed rows alone: cells read after the last capabilities cell are
    not returned. *)
Remark caps_variant_drops_trailing_cells :
  Caps.fetchRemoteLLDP
    (agentWalking (fullNeighbor ".0.1.1" "one"
                   ++ [cell Caps.lldpRemChassisID ".0.2.1" "chassis-of-two"]))
  = Returns (Ok [ list_to_map
                    [ ("Remote Chassis ID", "chassis-of-one");
                      ("Remote Port ID", "port-id-of-one");
                      ("Remote Port Description", "port-desc-of-one");
                      ("Remote System Name", "sys-name-of-one");
                      ("Remote System Capabilities", "capabilities-of-one") ] ]).
Proof. vm_compute. reflexivity. Qed.

(** The first program on the same walk returns the trailing cell as a
    partial record. *)
Remark hex_variant_keeps_trailing_cells :
  Hex.fetchRemoteLLDP
    (agentWalking (fullNeighbor ".0.1.1" "one"
                   ++ [cell Hex.lldpRemChassisID ".0.2.1" "chassis-of-two"]))
  = Returns (Ok [ list_to_map
                    [ ("Remote Chassis ID", "chassis-of-one");
                      ("Remote Port ID", "port-id-of-one");
                      ("Remote Port Description", "port-desc-of-one");
                      ("Remote System Name", "sys-name-of-one");
                      ("Remote System Capabilities", "capabilities-of-one");
                      ("Remote Management Address", "address-of-one") ];
                  {[ "Remote Chassis ID" := "chassis-of-two" ]} ]).
Proof. vm_compute. reflexivity. Qed.

End Variants.

(** ** Further properties of the value decoders *)

Section DecoderCoverage.

Import Hex.

Lemma hexdigit_inj (n m : N) :
  (n < 16)%N -> (m < 16)%N -> hexdigit n = hexdigit m -> n = m.
Proof.
  intros Hn Hm Heq. apply N2Nat.inj.
  assert (Hn' : (N.to_nat n < 16)%nat) by lia.
  assert (Hm' : (N.to_nat m < 16)%nat) by lia.
  unfold hexdigit in Heq.
  generalize dependent (N.to_nat m). generalize dependent (N.to_nat n).
  intros a Ha b Heq Hb.
  do 16 (destruct a as [|a]; [do 16 (destruct b as [|b]; [first [reflexivity|discriminate]|]); lia|]).
  lia.
Qed.

Lemma byte_of_nibbles (b b' : byte) :
  N.shiftr (Byte.to_N b) 4 = N.shiftr (Byte.to_N b') 4 ->
  N.land (Byte.to_N b) 15 = N.land (Byte.to_N b') 15 ->
  b = b'.
Proof.
  intros Hhi Hlo.
  assert (Hsame : Byte.to_N b = Byte.to_N b').
  { rewrite !N.shiftr_div_pow2 in Hhi.
    change 15%N with (N.ones 4) in Hlo. rewrite !N.land_ones in Hlo.
    rewrite (N.div_mod (Byte.to_N b) (2 ^ 4)) by discriminate.
    rewrite (N.div_mod (Byte.to_N b') (2 ^ 4)) by discriminate.
    by rewrite Hhi, Hlo. }
  pose proof (Byte.of_to_N b) as Hb. rewrite Hsame, Byte.of_to_N in Hb.
  by injection Hb.
Qed.

Lemma EncodeToString_inj (P Q : list byte) :
  EncodeToString P = EncodeToString Q -> P = Q.
Proof.
  revert Q. induction P as [|b rest IH]; intros [|b' rest'] Heq; simpl in Heq;
    try discriminate; [reflexivity|].
  injection Heq as Hhi Hlo Hrest.
  f_equal; [|by apply IH].
  apply byte_of_nibbles; apply hexdigit_inj; try apply byte_nibbles; done.
Qed.

Lemma string_of_list_byte_length (P : list byte) :
  String.length (string_of_list_byte P) = length P.
Proof.
  induction P as [|b rest IH]; [done|]. simpl. f_equal. exact IH.
Qed.

(** X1: an octet string that passes the printability test is returned as its
    own bytes, unchanged: reading the returned text back as bytes gives the
    payload. *)
Theorem X1_printable_payload_returned_verbatim (name : string) (P : list byte) :
  10 * nonPrintableCount P + 10 <= Z.of_nat (length P) ->
  exists text,
    parseSNMPVariable (mkPDU name OctetString (VBytes P)) = Returns text /\
    list_byte_of_string text = P /\
    String.length text = length P.
Proof.
  intros Hlen. exists (string_of_list_byte P).
  split; [by apply decode_text_when_tenth_exceeds|].
  split; [apply list_byte_of_string_of_list_byte|].
  apply string_of_list_byte_length.
Qed.

Lemma X1_printable_payload_returned_verbatim_witness :
  exists text,
    parseSNMPVariable
      (mkPDU lldpLocSysName OctetString (VBytes (list_byte_of_string "core-switch-1")))
      = Returns text /\
    list_byte_of_string text = list_byte_of_string "core-switch-1" /\
    String.length text = length (list_byte_of_string "core-switch-1").
Proof.
  apply (X1_printable_payload_returned_verbatim lldpLocSysName
           (list_byte_of_string "core-switch-1")).
  vm_compute. discriminate.
Defined.

(** X2: an octet string of fewer than ten bytes is always rendered in
    hexadecimal, whatever its bytes: the truncated tenth of its length is
    zero and no count is below zero. *)
Theorem X2_short_payload_always_hex (name : string) (P : list byte) :
  (length P < 10)%nat ->
  isMostlyPrintable P = false /\
  parseSNMPVariable (mkPDU name OctetString (VBytes P)) = Returns (EncodeToString P).
Proof.
  intros Hshort.
  assert (Hno : isMostlyPrintable P = false).
  { destruct (isMostlyPrintable P) eqn:Hp; [|done].
    apply isMostlyPrintable_iff in Hp.
    pose proof (nonPrintableCount_bounds P). lia. }
  split; [done|]. unfold parseSNMPVariable. simpl. by rewrite Hno.
Qed.

Lemma X2_short_payload_always_hex_witness :
  isMostlyPrintable (list_byte_of_string "Gi0/1") = false /\
  parseSNMPVariable (mkPDU lldpRemPortID OctetString (VBytes (list_byte_of_string "Gi0/1")))
    = Returns (EncodeToString (list_byte_of_string "Gi0/1")).
Proof.
  apply (X2_short_payload_always_hex lldpRemPortID (list_byte_of_string "Gi0/1")).
  vm_compute. lia.
Defined.

(** X3: whenever the printability test fails, the decoder returns two
    lowercase hexadecimal digits per byte, and the rendering loses nothing:
    two payloads rendered alike are the same payload. *)
Theorem X3_hex_rendering_shape (name : string) (P : list byte) :
  isMostlyPrintable P = false ->
  exists digits,
    parseSNMPVariable (mkPDU name OctetString (VBytes P)) = Returns digits /\
    String.length digits = (2 * length P)%nat /\
    (forall i c, String.get i digits = Some c -> lowerHex c) /\
    (forall Q, EncodeToString Q = digits -> Q = P).
Proof.
  intros Hno. exists (EncodeToString P). split.
  - unfold parseSNMPVariable. simpl. by rewrite Hno.
  - split; [apply EncodeToString_length|]. split.
    + intros i c. apply EncodeToString_digits.
    + intros Q. apply EncodeToString_inj.
Qed.

Lemma X3_hex_rendering_shape_witness :
  let P := ["000"; "026"; "043"; "060"; "077"; "094"]%byte in
  exists digits,
    parseSNMPVariable (mkPDU lldpRemChassisID OctetString (VBytes P)) = Returns digits /\
    String.length digits = (2 * length P)%nat /\
    (forall i c, String.get i digits = Some c -> lowerHex c) /\
    (forall Q, EncodeToString Q = digits -> Q = P).
Proof.
  intros P. apply (X3_hex_rendering_shape lldpRemChassisID P).
  vm_compute. reflexivity.
Defined.

(** X4: the decoders of the second and third programs never render an octet
    string in hexadecimal: the payload comes back as text and reads back as
    the same bytes, where the first program would have switched to digits. *)
Theorem X4_plain_decoders_return_text (name : string) (P : list byte) :
  Caps.parseSNMPVariable (mkPDU name OctetString (VBytes P))
    = Returns (string_of_list_byte P) /\
  Indexed.parseSNMPVariable (mkPDU name OctetString (VBytes P))
    = Returns (string_of_list_byte P) /\
  list_byte_of_string (string_of_list_byte P) = P /\
  (isMostlyPrintable P = false -> P <> [] ->
   parseSNMPVariable (mkPDU name OctetString (VBytes P))
     <> Returns (string_of_list_byte P)).
Proof.
  split; [reflexivity|]. split; [reflexivity|].
  split; [apply list_byte_of_string_of_list_byte|].
  intros Hno Hne. unfold parseSNMPVariable. simpl. rewrite Hno. intros [= Heq].
  apply (f_equal String.length) in Heq. rewrite EncodeToString_length in Heq.
  rewrite string_of_list_byte_length in Heq. destruct P; [done|]. simpl in Heq. lia.
Qed.

End DecoderCoverage.

(** ** The local fetch (first program) *)

Section LocalFetch.

Import Hex.

Lemma localLabel_known (name label : string) :
  localLabel name = Some label -> label ∈ localLabels.
Proof.
  unfold localLabel, localLabels.
  repeat (case_match; [intros [= <-]; set_solver|]). discriminate.
Qed.

Lemma localLoop_store (variables : list SnmpPDU) (info : gmap string string) :
  Forall wellTyped variables ->
  localLoop info variables =
    Returns (foldl (fun acc v => store v acc) info variables).
Proof.
  intros Hwt. revert info. induction Hwt as [|v rest Hv _ IH]; intros info; simpl.
  - reflexivity.
  - rewrite (parse_wellTyped v Hv). simpl. apply IH.
Qed.

Lemma stored_labels (variables : list SnmpPDU) (info : gmap string string) (label : string) :
  is_Some (foldl (fun acc v => store v acc) info variables !! label) <->
  is_Some (info !! label) \/
  exists variable, variable ∈ variables /\ localLabel (Name variable) = Some label.
Proof.
  revert info. induction variables as [|v rest IH]; intros info; simpl.
  - split; [eauto|]. intros [?|(v & Hin & _)]; [done|inversion Hin].
  - rewrite IH. unfold store. split.
    + intros [Hhere|(w & Hin & Hw)].
      * destruct (localLabel (Name v)) as [l|] eqn:Hl; [|eauto].
        destruct (decide (l = label)) as [->|Hne].
        -- right. exists v. split; [by left|done].
        -- rewrite lookup_insert_ne in Hhere by done. eauto.
      * right. exists w. split; [by right|done].
    + intros [Hbefore|(w & Hin & Hw)].
      * left. destruct (localLabel (Name v)) as [l|]; [|done].
        destruct (decide (l = label)) as [->|Hne].
        -- rewrite lookup_insert_eq. eauto.
        -- by rewrite lookup_insert_ne.
      * apply elem_of_cons in Hin as [->|Hin].
        -- left. rewrite Hw, lookup_insert_eq. eauto.
        -- right. eauto.
Qed.

(** A label keeps the value stored last when no later cell carries it. *)
Lemma stored_untouched (back : list SnmpPDU) (info : gmap string string) (label : string) :
  (forall variable, variable ∈ back -> localLabel (Name variable) ≠ Some label) ->
  foldl (fun acc v => store v acc) info back !! label = info !! label.
Proof.
  revert info. induction back as [|v rest IH]; intros info Hback; simpl; [done|].
  rewrite IH by (intros w Hw; apply Hback; by right).
  unfold store. destruct (localLabel (Name v)) as [l|] eqn:Hl; [|done].
  rewrite lookup_insert_ne; [done|]. intros ->. by apply (Hback v ltac:(by left)).
Qed.

Lemma stored_last (front back : list SnmpPDU) (variable : SnmpPDU) (label : string) :
  localLabel (Name variable) = Some label ->
  (forall later, later ∈ back -> localLabel (Name later) ≠ Some label) ->
  foldl (fun acc v => store v acc) ∅ (front ++ variable :: back) !! label
    = Some (decoded variable).
Proof.
  intros Hl Hback. rewrite foldl_app. simpl.
  rewrite (stored_untouched back _ label Hback).
  unfold store. by rewrite Hl, lookup_insert_eq.
Qed.

(** X5: the local record holds a label exactly when the reply holds a cell
    named by that label's identifier; cells with any other name are dropped,
    and no key outside the five local labels is ever stored. *)
Theorem X5_local_record_labels (snmp : GoSNMP) (variables : list SnmpPDU) :
  Get snmp localOids = Ok variables ->
  Forall wellTyped variables ->
  exists info,
    fetchLocalLLDP snmp = Returns (Ok info) /\
    (forall label,
       is_Some (info !! label) <->
       exists variable, variable ∈ variables /\ localLabel (Name variable) = Some label) /\
    (forall label, is_Some (info !! label) -> label ∈ localLabels).
Proof.
  intros Hget Hwt. eexists. split.
  { unfold fetchLocalLLDP. fold localOids. rewrite Hget, (localLoop_store _ _ Hwt). reflexivity. }
  assert (Hiff : forall label,
    is_Some (foldl (fun acc v => store v acc) ∅ variables !! label) <->
    exists variable, variable ∈ variables /\ localLabel (Name variable) = Some label).
  { intros label. rewrite stored_labels, lookup_empty. split; [|eauto].
    intros [[? Hs]|?]; [discriminate|done]. }
  split; [exact Hiff|].
  intros label Hs. apply Hiff in Hs as (v & _ & Hl). by eapply localLabel_known.
Qed.

Lemma X5_local_record_labels_witness :
  let reply :=
    [ mkPDU lldpLocSysName OctetString (VBytes (list_byte_of_string "core-switch-1"));
      mkPDU ".1.3.6.1.2.1.1.5.0" OctetString (VBytes (list_byte_of_string "not-requested")) ] in
  let snmp := mkSession None (fun _ => Ok reply) (fun _ => Ok []) in
  exists info,
    fetchLocalLLDP snmp = Returns (Ok info) /\
    (forall label,
       is_Some (info !! label) <->
       exists variable, variable ∈ reply /\ localLabel (Name variable) = Some label) /\
    (forall label, is_Some (info !! label) -> label ∈ localLabels).
Proof.
  intros reply snmp. apply (X5_local_record_labels snmp reply).
  - reflexivity.
  - apply (bool_decide_unpack _). vm_compute. reflexivity.
Defined.

(** X6: when several cells of the reply carry the same label the last one
    wins, and the value stored is that cell's decoded value. *)
Theorem X6_local_last_cell_wins (snmp : GoSNMP) (front back : list SnmpPDU)
    (variable : SnmpPDU) (label : string) :
  Get snmp localOids = Ok (front ++ variable :: back) ->
  Forall wellTyped (front ++ variable :: back) ->
  localLabel (Name variable) = Some label ->
  (forall later, later ∈ back -> localLabel (Name later) ≠ Some label) ->
  exists info value,
    fetchLocalLLDP snmp = Returns (Ok info) /\
    parseSNMPVariable variable = Returns value /\
    info !! label = Some value.
Proof.
  intros Hget Hwt Hl Hback.
  exists (foldl (fun acc v => store v acc) ∅ (front ++ variable :: back)), (decoded variable).
  split; [|split].
  - unfold fetchLocalLLDP. fold localOids. rewrite Hget, (localLoop_store _ _ Hwt). reflexivity.
  - apply parse_wellTyped. apply Forall_app in Hwt as [_ Hwt].
    by apply Forall_cons in Hwt as [Hv _].
  - by apply stored_last.
Qed.

Lemma X6_local_last_cell_wins_witness :
  let first := mkPDU lldpLocSysName OctetString (VBytes (list_byte_of_string "first-answer-1")) in
  let second := mkPDU lldpLocSysName OctetString (VBytes (list_byte_of_string "second-answer")) in
  let snmp := mkSession None (fun _ => Ok ([first] ++ second :: [])) (fun _ => Ok []) in
  exists info value,
    fetchLocalLLDP snmp = Returns (Ok info) /\
    parseSNMPVariable second = Returns value /\
    info !! "Local System Name" = Some value.
Proof.
  intros first second snmp.
  apply (X6_local_last_cell_wins snmp [first] [] second "Local System Name").
  - reflexivity.
  - apply (bool_decide_unpack _). vm_compute. reflexivity.
  - vm_compute. reflexivity.
  - intros later Hin. inversion Hin.
Defined.

(** X7: an identifier the agent does not have is not left out of the local
    record: the reply's cell for it carries no value, and the record stores
    the sentinel under its label. *)
Theorem X7_missing_object_stored_as_sentinel (snmp : GoSNMP) (front back : list SnmpPDU)
    (name label : string) (tag : Asn1BER) :
  Get snmp localOids = Ok (front ++ mkPDU name tag VNil :: back) ->
  Forall wellTyped (front ++ mkPDU name tag VNil :: back) ->
  localLabel name = Some label ->
  (forall later, later ∈ back -> localLabel (Name later) ≠ Some label) ->
  exists info,
    fetchLocalLLDP snmp = Returns (Ok info) /\ info !! label = Some "<nil>".
Proof.
  intros Hget Hwt Hl Hback.
  exists (foldl (fun acc v => store v acc) ∅ (front ++ mkPDU name tag VNil :: back)).
  split.
  - unfold fetchLocalLLDP. fold localOids. rewrite Hget, (localLoop_store _ _ Hwt). reflexivity.
  - rewrite (stored_last front back (mkPDU name tag VNil) label Hl Hback).
    apply Forall_app in Hwt as [_ Hwt]. apply Forall_cons in Hwt as [Hv _].
    f_equal. unfold decoded, parseSNMPVariable. simpl.
    destruct tag; try reflexivity.
    destruct (Hv eq_refl) as [data Hd]. discriminate.
Qed.

Lemma X7_missing_object_stored_as_sentinel_witness :
  let reply :=
    [ mkPDU lldpLocSysName OctetString (VBytes (list_byte_of_string "core-switch-1")) ]
    ++ mkPDU lldpLocPortDesc NoSuchInstance VNil :: [] in
  let snmp := mkSession None (fun _ => Ok reply) (fun _ => Ok []) in
  exists info,
    fetchLocalLLDP snmp = Returns (Ok info) /\
    info !! "Local Port Description" = Some "<nil>".
Proof.
  intros reply snmp.
  apply (X7_missing_object_stored_as_sentinel snmp
           [ mkPDU lldpLocSysName OctetString (VBytes (list_byte_of_string "core-switch-1")) ]
           [] lldpLocPortDesc "Local Port Description" NoSuchInstance).
  - reflexivity.
  - apply (bool_decide_unpack _). vm_compute. reflexivity.
  - vm_compute. reflexivity.
  - intros later Hin. inversion Hin.
Defined.

End LocalFetch.

(** ** Further properties of completion-driven grouping *)

Section CompletionCoverage.

Import Hex.

Lemma requiredKeys_size : size (list_to_set requiredKeys : gset string) = 6%nat.
Proof. vm_compute. reflexivity. Qed.

(** A record whose keys are required labels has at most six entries, and
    exactly six once it holds them all. *)
Lemma record_size (record : gmap string string) :
  (forall key, is_Some (record !! key) -> key ∈ requiredKeys) ->
  (size record <= 6)%nat /\ (holdsAllLabels record -> size record = 6%nat).
Proof.
  intros Hkeys.
  assert (Hsub : dom record ⊆ (list_to_set requiredKeys : gset string)).
  { intros key Hin. apply elem_of_dom in Hin. apply elem_of_list_to_set. by apply Hkeys. }
  rewrite <- size_dom, <- requiredKeys_size. split.
  - by apply subseteq_size.
  - intros Hall. f_equal. apply set_eq. intros key. split; [apply Hsub|].
    intros Hin. apply elem_of_list_to_set in Hin. apply elem_of_dom. by apply Hall.
Qed.

Lemma fetchRemoteLLDP_state (snmp : GoSNMP) (cells : list SnmpPDU) :
  WalkAll snmp lldpRemTable = Ok cells ->
  Forall wellTyped cells ->
  exists results current,
    walkLoop ([], ∅) cells = Returns (results, current) /\
    loopInvariant (results, current) /\
    fetchRemoteLLDP snmp =
      Returns (Ok (if decide (current = ∅) then results else results ++ [current])).
Proof.
  intros Hwalk Hwt.
  destruct (walkLoop_total ([], ∅) cells Hwt) as [[results current] Hloop].
  exists results, current. split; [done|].
  split; [eapply walkLoop_invariant; [apply loopInvariant_init|done]|].
  unfold fetchRemoteLLDP. rewrite Hwalk, Hloop. simpl.
  destruct (decide (current = ∅)) as [->|Hne].
  - rewrite map_size_empty. by destruct (decide (0 < 0)%nat); [lia|].
  - apply map_size_non_empty_iff in Hne.
    destruct (decide (0 < size current)%nat); [done|lia].
Qed.

(** X8: no record returned is empty, none has more than six entries, and
    every record but possibly the last has exactly six; a walk without any
    tracked cell returns no record at all rather than an empty one. *)
Theorem X8_record_sizes (snmp : GoSNMP) (cells : list SnmpPDU) :
  WalkAll snmp lldpRemTable = Ok cells ->
  Forall wellTyped cells ->
  exists records,
    fetchRemoteLLDP snmp = Returns (Ok records) /\
    (forall record, record ∈ records -> (1 <= size record <= 6)%nat) /\
    (forall i record,
       records !! i = Some record -> (S i < length records)%nat -> size record = 6%nat) /\
    ((forall variable, variable ∈ cells -> remoteLabel (Name variable) = None) ->
     records = []).
Proof.
  intros Hwalk Hwt.
  destruct (fetchRemoteLLDP_state snmp cells Hwalk Hwt)
    as (results & current & Hloop & (Hdone & Hcur & Hkeys) & Hfetch).
  simpl in Hdone, Hcur, Hkeys. apply Forall_cons in Hkeys as [Hkcur Hkres].
  rewrite Forall_forall in Hdone, Hkres.
  assert (Hres : forall record, record ∈ results -> size record = 6%nat).
  { intros record Hin. apply record_size; [by apply Hkres|by apply Hdone]. }
  eexists. split; [exact Hfetch|]. split; [|split].
  - intros record Hin.
    assert (Hcase : record ∈ results \/ (record = current /\ current ≠ ∅)).
    { destruct (decide (current = ∅)); [by left|].
      apply elem_of_app in Hin as [?|Hin]; [by left|].
      apply list_elem_of_singleton in Hin. by right. }
    destruct Hcase as [Hin'|[-> Hne]].
    + rewrite (Hres _ Hin'). lia.
    + split; [|by apply record_size].
      apply map_size_non_empty_iff in Hne. lia.
  - intros i record Hi Hlt. apply Hres.
    destruct (decide (current = ∅)).
    + eapply list_elem_of_lookup_2, Hi.
    + rewrite length_app in Hlt. simpl in Hlt.
      rewrite lookup_app_l in Hi by lia. eapply list_elem_of_lookup_2, Hi.
  - intros Hnone.
    assert (Hfill : foldl (fun cur v => assign (Name v) (decoded v) cur) ∅ cells = ∅).
    { clear -Hnone. induction cells as [|v rest IH] using rev_ind; [done|].
      rewrite foldl_snoc, IH by (intros w Hw; apply Hnone, elem_of_app; by left).
      unfold assign. rewrite (Hnone v); [done|]. apply elem_of_app. right. by left. }
    rewrite (walkLoop_filling cells [] ∅ Hwt) in Hloop by (by rewrite Hfill).
    injection Hloop as <- <-. rewrite Hfill. by rewrite decide_True.
Qed.

Lemma X8_record_sizes_witness :
  let cells := fullNeighbor ".0.1.1" "one" ++ shortNeighbor ".0.2.1" "two" in
  exists records,
    fetchRemoteLLDP (agentWalking cells) = Returns (Ok records) /\
    (forall record, record ∈ records -> (1 <= size record <= 6)%nat) /\
    (forall i record,
       records !! i = Some record -> (S i < length records)%nat -> size record = 6%nat) /\
    ((forall variable, variable ∈ cells -> remoteLabel (Name variable) = None) ->
     records = []).
Proof.
  intros cells. apply (X8_record_sizes (agentWalking cells) cells).
  - reflexivity.
  - apply (bool_decide_unpack _). vm_compute. reflexivity.
Defined.

(** Every entry of the loop state was decoded from a cell of [pool] that
    carries the entry's label. *)
Lemma walkLoop_provenance (pool cells : list SnmpPDU) (st st' : walkState) :
  (forall variable, variable ∈ cells -> variable ∈ pool) ->
  Forall (fun record : gmap string string => forall key value,
            record !! key = Some value -> comesFrom pool key value) (st.2 :: st.1) ->
  walkLoop st cells = Returns st' ->
  Forall (fun record : gmap string string => forall key value,
            record !! key = Some value -> comesFrom pool key value) (st'.2 :: st'.1).
Proof.
  revert st. induction cells as [|v rest IH]; intros st Hpool Hst Hloop; simpl in Hloop.
  - by injection Hloop as <-.
  - destruct (walkStep st v) as [st1| |msg] eqn:Hstep; simpl in Hloop; try discriminate.
    apply (IH st1); [intros w Hw; apply Hpool; by right| |done].
    unfold walkStep in Hstep.
    destruct (parseSNMPVariable v) as [value| |msg] eqn:Hp; simpl in Hstep; try discriminate.
    apply Forall_cons in Hst as [Hcur Hres].
    assert (Hnew : forall key val,
              assign (Name v) value st.2 !! key = Some val -> comesFrom pool key val).
    { intros key val. unfold assign.
      destruct (remoteLabel (Name v)) as [label|] eqn:Hl; [|apply Hcur].
      destruct (decide (label = key)) as [->|Hne].
      - rewrite lookup_insert_eq. intros [= <-]. exists v.
        split; [apply Hpool; by left|done].
      - rewrite lookup_insert_ne by done. apply Hcur. }
    destruct (hasAllKeys _); injection Hstep as <-; simpl.
    + apply Forall_cons. split; [intros key val; by rewrite lookup_empty|].
      apply Forall_app. split; [done|]. apply Forall_cons. split; [done|constructor].
    + apply Forall_cons. by split.
Qed.

(** X9: nothing in a returned record is made up: every value under a label
    is the decoded value of some cell of the walk whose name carries that
    label's prefix. *)
Theorem X9_record_values_come_from_cells (snmp : GoSNMP) (cells : list SnmpPDU)
    (records : list (gmap string string)) :
  WalkAll snmp lldpRemTable = Ok cells ->
  fetchRemoteLLDP snmp = Returns (Ok records) ->
  forall record key value,
    record ∈ records -> record !! key = Some value ->
    exists variable,
      variable ∈ cells /\
      remoteLabel (Name variable) = Some key /\
      parseSNMPVariable variable = Returns value.
Proof.
  intros Hwalk Hfetch record key value Hin Hval.
  unfold fetchRemoteLLDP in Hfetch. rewrite Hwalk in Hfetch.
  destruct (walkLoop ([], ∅) cells) as [[results current]| |msg] eqn:Hloop;
    simpl in Hfetch; try discriminate.
  pose proof (walkLoop_provenance cells cells ([], ∅) (results, current)
                ltac:(done)) as Hprov.
  simpl in Hprov. specialize (Hprov ltac:(
    apply Forall_cons; split; [intros k v'; by rewrite lookup_empty|constructor]) Hloop).
  apply Forall_cons in Hprov as [Hcur Hres]. rewrite Forall_forall in Hres.
  assert (Hfrom : record ∈ results \/ record = current).
  { destruct (decide (0 < size current)%nat); injection Hfetch as <-; [|by left].
    apply elem_of_app in Hin as [?|Hin]; [by left|].
    apply list_elem_of_singleton in Hin. by right. }
  destruct Hfrom as [Hr| ->]; [by apply (Hres record Hr)|by apply Hcur].
Qed.

Lemma X9_record_values_come_from_cells_witness :
  let cells := shortNeighbor ".0.1.1" "one" in
  exists variable,
    variable ∈ cells /\
    remoteLabel (Name variable) = Some "Remote System Name" /\
    parseSNMPVariable variable = Returns "sys-name-of-one".
Proof.
  intros cells.
  apply (X9_record_values_come_from_cells (agentWalking cells) cells [fill cells]
           eq_refl ltac:(vm_compute; reflexivity) (fill cells)).
  - by left.
  - vm_compute. reflexivity.
Defined.

End CompletionCoverage.

(** ** Walks that stay under the table root *)

Section UnderRoot.

Import Hex.

Lemma HasPrefix_split (s pre : string) :
  HasPrefix s pre = true -> exists rest, s = pre +:+ rest.
Proof.
  unfold HasPrefix. revert s. induction pre as [|a pre IH]; intros s Hp.
  - by exists s.
  - destruct s as [|b s]; simpl in Hp; [discriminate|].
    destruct (ascii_dec a b) as [->|]; [|discriminate].
    destruct (IH s Hp) as [rest ->]. by exists rest.
Qed.

(** The management-address column lies outside the subtree that is walked. *)
Lemma under_root_no_address (name : string) :
  HasPrefix name lldpRemTable = true ->
  remoteLabel name ≠ Some "Remote Management Address".
Proof.
  intros Hroot Hlabel. unfold remoteLabel in Hlabel.
  repeat (case_match; [discriminate|]).
  destruct (HasPrefix name lldpRemMgmtAddress) eqn:Haddr; [|discriminate].
  apply HasPrefix_split in Hroot as [r1 Hr1]. apply HasPrefix_split in Haddr as [r2 Hr2].
  rewrite Hr1 in Hr2. vm_compute in Hr2. congruence.
Qed.

Lemma filling_without_address (cells : list SnmpPDU) (current : gmap string string) :
  (forall variable, variable ∈ cells ->
     remoteLabel (Name variable) ≠ Some "Remote Management Address") ->
  current !! "Remote Management Address" = None ->
  hasAllKeys (foldl (fun cur v => assign (Name v) (decoded v) cur) current cells) = false.
Proof.
  intros Hcells Hcur.
  assert (Hnone : foldl (fun cur v => assign (Name v) (decoded v) cur) current cells
                    !! "Remote Management Address" = None).
  { revert current Hcur. induction cells as [|v rest IH]; intros current Hcur; simpl; [done|].
    apply IH; [intros w Hw; apply Hcells; by right|].
    unfold assign. destruct (remoteLabel (Name v)) as [label|] eqn:Hl; [|done].
    rewrite lookup_insert_ne; [done|]. intros ->. by apply (Hcells v ltac:(by left)). }
  apply hasAllKeys_false_iff. intros Hall.
  destruct (Hall "Remote Management Address") as [value Hv]; [set_solver|]. congruence.
Qed.

(** X10: on a walk whose cells all lie under the table root, as a subtree
    walk returns them, the completion test never succeeds, because the
    management-address column is outside that subtree: all cells are merged
    into one record, whatever the number of neighbors. *)
Theorem X10_walk_under_root_single_record (snmp : GoSNMP) (cells : list SnmpPDU) :
  WalkAll snmp lldpRemTable = Ok cells ->
  Forall wellTyped cells ->
  (forall variable, variable ∈ cells -> HasPrefix (Name variable) lldpRemTable = true) ->
  fetchRemoteLLDP snmp =
    Returns (Ok (if decide (fill cells = ∅) then [] else [fill cells])) /\
  hasAllKeys (fill cells) = false.
Proof.
  intros Hwalk Hwt Hroot.
  assert (Hno : hasAllKeys (fill cells) = false).
  { apply filling_without_address; [|apply lookup_empty].
    intros v Hv. by apply under_root_no_address, Hroot. }
  split; [|done].
  unfold fetchRemoteLLDP. rewrite Hwalk.
  rewrite (walkLoop_filling cells [] ∅ Hwt Hno). simpl. fold (fill cells).
  destruct (decide (fill cells = ∅)) as [->|Hne].
  - rewrite map_size_empty. by destruct (decide (0 < 0)%nat); [lia|].
  - apply map_size_non_empty_iff in Hne.
    destruct (decide (0 < size (fill cells))%nat); [done|lia].
Qed.

Lemma X10_walk_under_root_single_record_witness :
  let cells :=
    [ cell lldpRemChassisID ".0.1.1" "chassis-of-one";
      cell lldpRemChassisID ".0.2.1" "chassis-of-two";
      cell lldpRemSysName ".0.1.1" "sys-name-of-one";
      cell lldpRemSysName ".0.2.1" "sys-name-of-two" ] in
  fetchRemoteLLDP (agentWalking cells) =
    Returns (Ok (if decide (fill cells = ∅) then [] else [fill cells])) /\
  hasAllKeys (fill cells) = false.
Proof.
  intros cells. apply (X10_walk_under_root_single_record (agentWalking cells) cells).
  - reflexivity.
  - apply (bool_decide_unpack _). vm_compute. reflexivity.
  - intros variable Hin.
    repeat (apply elem_of_cons in Hin as [->|Hin]; [vm_compute; reflexivity|]).
    inversion Hin.
Defined.

Lemma assign_size (name value : string) (current : gmap string string) :
  (size (assign name value current) <=
   size current + (match remoteLabel name with Some _ => 1 | None => 0 end))%nat.
Proof.
  unfold assign. destruct (remoteLabel name) as [label|]; [|lia].
  rewrite map_size_insert. destruct (current !! label); simpl; lia.
Qed.

Lemma walkLoop_consumes (cells : list SnmpPDU) (st st' : walkState) :
  loopInvariant st ->
  walkLoop st cells = Returns st' ->
  (6 * length st'.1 + size st'.2 <=
   6 * length st.1 + size st.2 + length (filter tracked cells))%nat.
Proof.
  revert st. induction cells as [|v rest IH]; intros st Hinv Hloop; simpl in Hloop.
  - injection Hloop as <-. simpl. lia.
  - destruct (walkStep st v) as [st1| |msg] eqn:Hstep; simpl in Hloop; try discriminate.
    pose proof (walkStep_invariant _ _ _ Hinv Hstep) as Hinv1.
    specialize (IH st1 Hinv1 Hloop).
    assert (Hone : (6 * length st1.1 + size st1.2 <=
                    6 * length st.1 + size st.2
                    + (match remoteLabel (Name v) with Some _ => 1 | None => 0 end))%nat).
    { unfold walkStep in Hstep.
      destruct (parseSNMPVariable v) as [value| |msg]; simpl in Hstep; try discriminate.
      pose proof (assign_size (Name v) value st.2) as Hsz.
      destruct Hinv as (_ & _ & Hkeys). apply Forall_cons in Hkeys as [Hk _].
      destruct (hasAllKeys _) eqn:Hall; injection Hstep as <-; simpl; [|lia].
      destruct (record_size _ (assign_keys (Name v) value _ Hk)) as [_ Hsix].
      rewrite length_app, map_size_empty. simpl.
      rewrite Hsix in Hsz by (by apply hasAllKeys_iff). lia. }
    destruct (remoteLabel (Name v)) as [label|] eqn:Hl.
    + rewrite filter_cons_True by (unfold tracked; rewrite Hl; eauto). simpl. lia.
    + rewrite filter_cons_False by (unfold tracked; rewrite Hl; intros [? ?]; discriminate).
      lia.
Qed.

(** X11: every completed record uses up six tracked cells of its own: with
    n tracked cells in the walk at most n/6 records are complete, and the
    number of records returned is at most (n + 5)/6. *)
Theorem X11_six_cells_per_record (snmp : GoSNMP) (cells : list SnmpPDU)
    (records : list (gmap string string)) :
  WalkAll snmp lldpRemTable = Ok cells ->
  fetchRemoteLLDP snmp = Returns (Ok records) ->
  (6 * length records <= length (filter tracked cells) + 5)%nat /\
  (6 * length (filter (fun record => hasAllKeys record = true) records)
   <= length (filter tracked cells))%nat.
Proof.
  intros Hwalk Hfetch. unfold fetchRemoteLLDP in Hfetch. rewrite Hwalk in Hfetch.
  destruct (walkLoop ([], ∅) cells) as [[results current]| |msg] eqn:Hloop;
    simpl in Hfetch; try discriminate.
  pose proof (walkLoop_consumes _ _ _ loopInvariant_init Hloop) as Hcount.
  destruct (walkLoop_invariant _ _ _ loopInvariant_init Hloop) as (Hdone & Hcur & _).
  simpl in Hcount, Hdone, Hcur. rewrite map_size_empty in Hcount.
  assert (Hall : filter (fun record => hasAllKeys record = true) results = results).
  { clear -Hdone. induction results as [|r rest IH]; [done|].
    apply Forall_cons in Hdone as [Hr Hrest].
    rewrite filter_cons_True by (by apply hasAllKeys_iff). by rewrite IH. }
  destruct (decide (0 < size current)%nat); injection Hfetch as <-.
  - rewrite filter_app, Hall.
    rewrite filter_cons_False by (apply hasAllKeys_false_iff in Hcur; congruence).
    rewrite filter_nil, app_nil_r, length_app. simpl. lia.
  - rewrite Hall. lia.
Qed.

Lemma X11_six_cells_per_record_witness :
  let cells := fullNeighbor ".0.1.1" "one" ++ shortNeighbor ".0.2.1" "two" in
  let records := [fill (fullNeighbor ".0.1.1" "one"); fill (shortNeighbor ".0.2.1" "two")] in
  (6 * length records <= length (filter tracked cells) + 5)%nat /\
  (6 * length (filter (fun record => hasAllKeys record = true) records)
   <= length (filter tracked cells))%nat.
Proof.
  intros cells records.
  apply (X11_six_cells_per_record (agentWalking cells) cells records).
  - reflexivity.
  - vm_compute. reflexivity.
Defined.

End UnderRoot.

(** ** Grouping by the capabilities cell (second program) *)

Section CapsGrouping.

Import Caps.

Lemma parseCaps_wellTyped (variable : SnmpPDU) :
  wellTyped variable -> exists value, parseSNMPVariable variable = Returns value.
Proof.
  intros Hwt. unfold parseSNMPVariable.
  destruct (decide (PduType variable = OctetString)) as [Hty|Hty].
  - rewrite Hty. destruct (Hwt Hty) as [data ->]. eauto.
  - destruct (PduType variable); try congruence; eauto.
Qed.

(** The five column prefixes exclude one another, so the capabilities case
    is taken exactly by the names that carry the capabilities prefix. *)
Lemma capabilities_prefix_alone (name : string) :
  HasPrefix name lldpRemSysCap = true ->
  HasPrefix name lldpRemChassisID = false /\
  HasPrefix name lldpRemPortID = false /\
  HasPrefix name lldpRemPortDesc = false /\
  HasPrefix name lldpRemSysName = false.
Proof.
  intros Hcap. apply HasPrefix_split in Hcap as [rest ->].
  repeat split; vm_compute; reflexivity.
Qed.

Lemma walkStep_closing (st : walkState) (variable : SnmpPDU) :
  wellTyped variable ->
  closesCapsRow variable ->
  exists value,
    walkStep st variable =
      Returns (st.1 ++ [<["Remote System Capabilities" := value]> st.2], ∅).
Proof.
  intros Hwt Hcap. destruct (parseCaps_wellTyped _ Hwt) as [value Hp].
  exists value. unfold walkStep. rewrite Hp. simpl.
  destruct (capabilities_prefix_alone _ Hcap) as (-> & -> & -> & ->).
  unfold closesCapsRow in Hcap. by rewrite Hcap.
Qed.

Lemma walkStep_filling (st : walkState) (variable : SnmpPDU) :
  wellTyped variable ->
  ~ closesCapsRow variable ->
  (forall key, is_Some (st.2 !! key) -> key ∈ capsOpenLabels) ->
  exists current,
    walkStep st variable = Returns (st.1, current) /\
    (forall key, is_Some (current !! key) -> key ∈ capsOpenLabels).
Proof.
  intros Hwt Hcap Hkeys. destruct (parseCaps_wellTyped _ Hwt) as [value Hp].
  unfold walkStep. rewrite Hp. simpl. unfold closesCapsRow in Hcap.
  apply not_true_is_false in Hcap. rewrite Hcap.
  assert (Hins : forall label, label ∈ capsOpenLabels ->
            forall key, is_Some (<[label := value]> st.2 !! key) -> key ∈ capsOpenLabels).
  { intros label Hl key. destruct (decide (label = key)) as [<-|Hne]; [done|].
    rewrite lookup_insert_ne by done. apply Hkeys. }
  repeat (case_match; [eexists; split; [reflexivity|]; apply Hins; set_solver|]).
  destruct st. eauto.
Qed.

Lemma walkLoop_app_caps (st : walkState) (front back : list SnmpPDU) :
  walkLoop st (front ++ back) = (st' ← walkLoop st front; walkLoop st' back).
Proof.
  revert st. induction front as [|v rest IH]; intros st; simpl; [reflexivity|].
  destruct (walkStep st v) as [st'| |msg]; simpl; [apply IH|reflexivity|reflexivity].
Qed.

(** What the loop of the second program maintains. *)
Lemma walkLoop_caps (cells : list SnmpPDU) (st : walkState) :
  Forall wellTyped cells ->
  (forall key, is_Some (st.2 !! key) -> key ∈ capsOpenLabels) ->
  exists closed current,
    walkLoop st cells = Returns (st.1 ++ closed, current) /\
    length closed = length (filter closesCapsRow cells) /\
    (forall key, is_Some (current !! key) -> key ∈ capsOpenLabels) /\
    (forall record, record ∈ closed ->
       is_Some (record !! "Remote System Capabilities") /\
       (forall key, is_Some (record !! key) ->
          key ∈ "Remote System Capabilities" :: capsOpenLabels)).
Proof.
  intros Hwt. revert st. induction Hwt as [|v rest Hv _ IH]; intros st Hkeys; simpl.
  - exists [], st.2. rewrite app_nil_r. destruct st as [results current]. simpl.
    split; [done|]. split; [done|]. split; [done|].
    intros record Hin. inversion Hin.
  - destruct (decide (closesCapsRow v)) as [Hcap|Hcap].
    + destruct (walkStep_closing st v Hv Hcap) as [value ->]. simpl.
      destruct (IH (st.1 ++ [<["Remote System Capabilities" := value]> st.2], ∅))
        as (closed & current & Hloop & Hlen & Hcur & Hrec).
      { simpl. intros key [? Hk]. by rewrite lookup_empty in Hk. }
      simpl in Hloop. rewrite <- app_assoc in Hloop.
      eexists _, current. split; [exact Hloop|].
      rewrite filter_cons_True by done. simpl. split; [by rewrite Hlen|].
      split; [done|]. intros record Hin.
      apply elem_of_cons in Hin as [->|Hin]; [|by apply Hrec].
      split; [rewrite lookup_insert_eq; eauto|].
      intros key. destruct (decide ("Remote System Capabilities" = key)) as [<-|Hne].
      * intros _. by left.
      * rewrite lookup_insert_ne by done. intros Hk. right. by apply Hkeys.
    + destruct (walkStep_filling st v Hv Hcap Hkeys) as (cur & -> & Hcur'). simpl.
      destruct (IH (st.1, cur) Hcur') as (closed & current & Hloop & Hlen & Hcur & Hrec).
      exists closed, current. rewrite filter_cons_False by done. done.
Qed.

(** X12: the second program returns one record per cell that carries the
    capabilities prefix; each record holds the capabilities label, and no
    record holds a key other than the five labels of this program (never a
    management address). *)
Theorem X12_caps_one_record_per_capabilities_cell (snmp : GoSNMP) (cells : list SnmpPDU) :
  WalkAll snmp lldpRemTable = Ok cells ->
  Forall wellTyped cells ->
  exists records,
    fetchRemoteLLDP snmp = Returns (Ok records) /\
    length records = length (filter closesCapsRow cells) /\
    (forall record, record ∈ records ->
       is_Some (record !! "Remote System Capabilities") /\
       (forall key, is_Some (record !! key) ->
          key ∈ "Remote System Capabilities" :: capsOpenLabels)).
Proof.
  intros Hwalk Hwt.
  destruct (walkLoop_caps cells ([], ∅) Hwt) as (closed & current & Hloop & Hlen & _ & Hrec).
  { simpl. intros key [? Hk]. by rewrite lookup_empty in Hk. }
  exists closed. unfold fetchRemoteLLDP. rewrite Hwalk, Hloop. done.
Qed.

Lemma X12_caps_one_record_per_capabilities_cell_witness :
  let cells := fullNeighbor ".0.1.1" "one" ++ shortNeighbor ".0.2.1" "two" in
  exists records,
    fetchRemoteLLDP (agentWalking cells) = Returns (Ok records) /\
    length records = length (filter closesCapsRow cells) /\
    (forall record, record ∈ records ->
       is_Some (record !! "Remote System Capabilities") /\
       (forall key, is_Some (record !! key) ->
          key ∈ "Remote System Capabilities" :: capsOpenLabels)).
Proof.
  intros cells.
  apply (X12_caps_one_record_per_capabilities_cell (agentWalking cells) cells).
  - reflexivity.
  - apply (bool_decide_unpack _). vm_compute. reflexivity.
Defined.

(** X13: the second program drops whatever follows the last capabilities
    cell: a walk extended by cells without the capabilities prefix returns
    the same records as the walk without them. *)
Theorem X13_caps_trailing_cells_dropped (snmp extended : GoSNMP)
    (cells trailing : list SnmpPDU) :
  WalkAll snmp lldpRemTable = Ok cells ->
  WalkAll extended lldpRemTable = Ok (cells ++ trailing) ->
  Forall wellTyped (cells ++ trailing) ->
  Forall (fun variable => ~ closesCapsRow variable) trailing ->
  exists records,
    fetchRemoteLLDP snmp = Returns (Ok records) /\
    fetchRemoteLLDP extended = Returns (Ok records).
Proof.
  intros Hwalk Hext Hwt Hno. apply Forall_app in Hwt as [Hwt1 Hwt2].
  destruct (walkLoop_caps cells ([], ∅) Hwt1) as (closed & current & Hloop & _ & Hcur & _).
  { simpl. intros key [? Hk]. by rewrite lookup_empty in Hk. }
  destruct (walkLoop_caps trailing ([] ++ closed, current) Hwt2 Hcur)
    as (more & last & Hloop2 & Hlen & _).
  assert (Hnil : filter closesCapsRow trailing = []).
  { clear -Hno. induction Hno as [|v rest Hv _ IH]; [done|].
    by rewrite filter_cons_False. }
  rewrite Hnil in Hlen. apply nil_length_inv in Hlen as ->.
  exists closed. unfold fetchRemoteLLDP.
  rewrite Hwalk, Hext, walkLoop_app_caps, Hloop. simpl.
  simpl in Hloop2. rewrite Hloop2. simpl. by rewrite app_nil_r.
Qed.

Lemma X13_caps_trailing_cells_dropped_witness :
  let cells := fullNeighbor ".0.1.1" "one" in
  let trailing := [cell lldpRemChassisID ".0.2.1" "chassis-of-two";
                   cell lldpRemSysName ".0.2.1" "sys-name-of-two"] in
  exists records,
    fetchRemoteLLDP (agentWalking cells) = Returns (Ok records) /\
    fetchRemoteLLDP (agentWalking (cells ++ trailing)) = Returns (Ok records).
Proof.
  intros cells trailing.
  apply (X13_caps_trailing_cells_dropped (agentWalking cells)
           (agentWalking (cells ++ trailing)) cells trailing).
  - reflexivity.
  - reflexivity.
  - apply (bool_decide_unpack _). vm_compute. reflexivity.
  - apply (bool_decide_unpack _). vm_compute. reflexivity.
Defined.

End CapsGrouping.

(** ** Further properties of the third program *)

Section IndexedCoverage.

Import Indexed.

Lemma splitDots_nonempty (s : string) : splitDots s ≠ [].
Proof. destruct s as [|c s]; simpl; [done|]. destruct (Ascii.eqb c "."); [done|]. by destruct (splitDots s). Qed.

Lemma splitDots_length (s : string) : length (splitDots s) = S (dots s).
Proof.
  induction s as [|c s IH]; simpl; [done|].
  destruct (Ascii.eqb c "."); simpl; [by rewrite IH|].
  destruct (splitDots s); simpl in *; done.
Qed.

Lemma splitDots_join (s : string) : joinWith "." (splitDots s) = s.
Proof.
  induction s as [|c s IH]; simpl; [done|].
  destruct (Ascii.eqb c ".") eqn:Hc.
  - apply Ascii.eqb_eq in Hc as ->. pose proof (splitDots_nonempty s) as Hne.
    simpl. destruct (splitDots s) as [|p ps]; [done|]. simpl in *. by rewrite IH.
  - pose proof (splitDots_nonempty s) as Hne.
    destruct (splitDots s) as [|p ps]; [done|].
    destruct ps as [|q qs]; simpl in *; by rewrite <- IH.
Qed.

Lemma splitDots_parts (s part : string) :
  part ∈ splitDots s -> dots part = 0%nat.
Proof.
  revert part. induction s as [|c s IH]; intros part Hin; simpl in Hin.
  - apply list_elem_of_singleton in Hin as ->. done.
  - destruct (Ascii.eqb c ".") eqn:Hc.
    + apply elem_of_cons in Hin as [->|Hin]; [done|by apply IH].
    + destruct (splitDots s) as [|p ps].
      * apply list_elem_of_singleton in Hin as ->. simpl. by rewrite Hc.
      * apply elem_of_cons in Hin as [->|Hin].
        -- simpl. rewrite Hc. apply IH. by left.
        -- apply IH. by right.
Qed.

(** X14: splitting an identifier loses nothing: it yields one more part
    than the identifier has dots, no part holds a dot, and joining the parts
    with dots gives the identifier back. *)
Theorem X14_parseOID_round_trip (oid : string) :
  joinWith "." (parseOID oid) = oid /\
  length (parseOID oid) = S (dots oid) /\
  (forall part, part ∈ parseOID oid -> dots part = 0%nat).
Proof.
  unfold parseOID. split; [apply splitDots_join|].
  split; [apply splitDots_length|]. apply splitDots_parts.
Qed.

Lemma rowKey_dots (name : string) :
  is_Some (rowKey name) <-> (2 <= dots name)%nat.
Proof.
  unfold rowKey, parseOID. rewrite splitDots_length.
  destruct (S (dots name) <? 3)%nat eqn:Hlt.
  - apply Nat.ltb_lt in Hlt. split; [intros [? ?]; discriminate|lia].
  - apply Nat.ltb_ge in Hlt. split; [lia|eauto].
Qed.

Lemma walkLoop_skips_unkeyed (cells : list SnmpPDU)
    (info : gmap string (gmap string string)) :
  walkLoop info cells = walkLoop info (filter keyed cells).
Proof.
  revert info. induction cells as [|v rest IH]; intros info; [done|].
  destruct (rowKey (Name v)) as [[id subOid]|] eqn:Hk.
  - rewrite filter_cons_True by (unfold keyed; rewrite Hk; eauto).
    simpl. destruct (walkStep info v); simpl; [apply IH|done|done].
  - rewrite filter_cons_False by (unfold keyed; rewrite Hk; intros [? ?]; discriminate).
    simpl. unfold walkStep. rewrite Hk. simpl. apply IH.
Qed.

(** X15: a cell whose name has fewer than two dots is skipped before it is
    decoded: removing such cells from a walk changes nothing of what the
    fetch returns, even when they could not have been decoded. *)
Theorem X15_short_names_skipped (snmp filtered : GoSNMP) (cells : list SnmpPDU) :
  WalkAll snmp lldpRemTable = Ok cells ->
  WalkAll filtered lldpRemTable =
    Ok (filter (fun variable => (2 <= dots (Name variable))%nat) cells) ->
  fetchRemoteLLDP snmp = fetchRemoteLLDP filtered.
Proof.
  intros Hwalk Hfiltered. unfold fetchRemoteLLDP. rewrite Hwalk, Hfiltered.
  rewrite (walkLoop_skips_unkeyed cells). f_equal. f_equal.
  clear. induction cells as [|v rest IH]; [done|].
  destruct (decide (2 <= dots (Name v))%nat) as [Hd|Hd].
  - rewrite filter_cons_True by (by apply rowKey_dots).
    rewrite (filter_cons_True (fun variable => (2 <= dots (Name variable))%nat)) by done.
    by rewrite IH.
  - rewrite filter_cons_False by (unfold keyed; by rewrite rowKey_dots).
    rewrite (filter_cons_False (fun variable => (2 <= dots (Name variable))%nat)) by done.
    exact IH.
Qed.

Lemma X15_short_names_skipped_witness :
  let cells :=
    [ mkPDU "1.2" OctetString VNil;
      cell Hex.lldpRemChassisID ".100.1.1" "chassis-of-one" ] in
  fetchRemoteLLDP (agentWalking cells) =
  fetchRemoteLLDP (agentWalking [cell Hex.lldpRemChassisID ".100.1.1" "chassis-of-one"]).
Proof.
  intros cells.
  apply (X15_short_names_skipped (agentWalking cells)
           (agentWalking [cell Hex.lldpRemChassisID ".100.1.1" "chassis-of-one"]) cells).
  - reflexivity.
  - vm_compute. reflexivity.
Defined.

Lemma collected_untouched (back : list SnmpPDU) (info : gmap string (gmap string string))
    (id subOid : string) :
  (forall later, later ∈ back -> rowKey (Name later) ≠ Some (id, subOid)) ->
  default ∅ (foldl (fun acc v => put v acc) info back !! id) !! subOid
    = default ∅ (info !! id) !! subOid.
Proof.
  revert info. induction back as [|v rest IH]; intros info Hback; simpl; [done|].
  rewrite IH by (intros w Hw; apply Hback; by right).
  rewrite put_lookup. destruct (rowKey (Name v)) as [[id' sub']|] eqn:Hk; [|done].
  destruct (decide (id' = id)) as [->|Hne]; [|done].
  rewrite lookup_insert_ne; [done|]. intros ->. by apply (Hback v ltac:(by left)).
Qed.

(** X16: when several cells fall on the same row identity and label, the
    last one wins: the record holds the decoded value of the last such cell
    of the walk. *)
Theorem X16_indexed_last_cell_wins (snmp : GoSNMP) (front back : list SnmpPDU)
    (variable : SnmpPDU) (id subOid : string) :
  WalkAll snmp lldpRemTable = Ok (front ++ variable :: back) ->
  Forall wellTyped (front ++ variable :: back) ->
  rowKey (Name variable) = Some (id, subOid) ->
  (forall later, later ∈ back -> rowKey (Name later) ≠ Some (id, subOid)) ->
  exists info record value,
    fetchRemoteLLDP snmp = Returns (Ok info) /\
    parseSNMPVariable variable = Returns value /\
    info !! id = Some record /\
    record !! subOid = Some value.
Proof.
  intros Hwalk Hwt Hk Hback.
  set (info := foldl (fun acc v => put v acc) ∅ (front ++ variable :: back)).
  assert (Hval : default ∅ (info !! id) !! subOid = Some (decodedPlain variable)).
  { unfold info. rewrite foldl_app. simpl.
    rewrite (collected_untouched back _ id subOid Hback), put_lookup, Hk.
    rewrite decide_True by done. apply lookup_insert_eq. }
  destruct (info !! id) as [record|] eqn:Hrec;
    [|simpl in Hval; by rewrite lookup_empty in Hval].
  exists info, record, (decodedPlain variable). split; [|split; [|done]].
  - unfold fetchRemoteLLDP. rewrite Hwalk, (walkLoop_put _ _ Hwt). reflexivity.
  - apply parsePlain_wellTyped. apply Forall_app in Hwt as [_ Hwt].
    by apply Forall_cons in Hwt as [Hv _].
Qed.

Lemma X16_indexed_last_cell_wins_witness :
  let first := cell Hex.lldpRemChassisID ".0.1.1" "chassis-of-one" in
  let last := cell Hex.lldpRemSysName ".0.1.1" "sys-name-of-one" in
  exists info record value,
    fetchRemoteLLDP (agentWalking ([first] ++ last :: [])) = Returns (Ok info) /\
    parseSNMPVariable last = Returns value /\
    info !! "0" = Some record /\
    record !! "1" = Some value.
Proof.
  intros first last.
  apply (X16_indexed_last_cell_wins (agentWalking ([first] ++ last :: []))
           [first] [] last "0" "1").
  - reflexivity.
  - apply (bool_decide_unpack _). vm_compute. reflexivity.
  - vm_compute. reflexivity.
  - intros later Hin. inversion Hin.
Defined.

End IndexedCoverage.

(** ** The third program's local fetch and writer *)

Section IndexedOutput.

Import Indexed.

Lemma localLoop_names (variables : list SnmpPDU) (info : gmap string string) :
  Forall wellTyped variables ->
  exists info',
    localLoop info variables = Returns info' /\
    forall name,
      is_Some (info' !! name) <->
      is_Some (info !! name) \/ exists variable, variable ∈ variables /\ Name variable = name.
Proof.
  intros Hwt. revert info. induction Hwt as [|v rest Hv _ IH]; intros info; simpl.
  - exists info. split; [done|]. intros name. split; [eauto|].
    intros [?|(v & Hin & _)]; [done|inversion Hin].
  - rewrite (parsePlain_wellTyped v Hv). simpl.
    destruct (IH (<[Name v := decodedPlain v]> info)) as (info' & -> & Hiff).
    exists info'. split; [done|]. intros name. rewrite Hiff. split.
    + intros [Hhere|(w & Hin & Hw)].
      * destruct (decide (Name v = name)) as [<-|Hne].
        -- right. exists v. split; [by left|done].
        -- rewrite lookup_insert_ne in Hhere by done. by left.
      * right. exists w. split; [by right|done].
    + intros [Hbefore|(w & Hin & Hw)].
      * left. destruct (decide (Name v = name)) as [<-|Hne].
        -- rewrite lookup_insert_eq. eauto.
        -- by rewrite lookup_insert_ne.
      * apply elem_of_cons in Hin as [->|Hin].
        -- left. rewrite Hw, lookup_insert_eq. eauto.
        -- right. eauto.
Qed.

(** X17: the local fetch of the third program keeps every cell of the reply
    under the cell's own name: the keys of the local record are exactly the
    names found in the reply, requested or not. *)
Theorem X17_indexed_local_keys_are_names (snmp : GoSNMP) (variables : list SnmpPDU) :
  Get snmp [lldpLocChassisID; lldpLocSysName] = Ok variables ->
  Forall wellTyped variables ->
  exists info,
    fetchLocalLLDP snmp = Returns (Ok info) /\
    forall name,
      is_Some (info !! name) <-> exists variable, variable ∈ variables /\ Name variable = name.
Proof.
  intros Hget Hwt. destruct (localLoop_names variables ∅ Hwt) as (info & Hloop & Hiff).
  exists info. unfold fetchLocalLLDP. rewrite Hget, Hloop. split; [done|].
  intros name. rewrite Hiff, lookup_empty. split; [|eauto].
  intros [[? Hs]|?]; [discriminate|done].
Qed.

Lemma X17_indexed_local_keys_are_names_witness :
  let reply :=
    [ mkPDU lldpLocSysName OctetString (VBytes (list_byte_of_string "core-switch-1"));
      mkPDU ".1.3.6.1.2.1.1.5.0" OctetString (VBytes (list_byte_of_string "not-requested")) ] in
  let snmp := mkSession None (fun _ => Ok reply) (fun _ => Ok []) in
  exists info,
    fetchLocalLLDP snmp = Returns (Ok info) /\
    forall name,
      is_Some (info !! name) <-> exists variable, variable ∈ reply /\ Name variable = name.
Proof.
  intros reply snmp. apply (X17_indexed_local_keys_are_names snmp reply).
  - reflexivity.
  - apply (bool_decide_unpack _). vm_compute. reflexivity.
Defined.

Lemma concat_blocks_perm {A B : Type} (f : A -> list B) (order : list A)
    (blocks : list (list B)) :
  Forall2 (fun x block => block ≡ₚ f x) order blocks ->
  concat blocks ≡ₚ concat (map f order).
Proof.
  induction 1 as [|x block order' blocks' Hb _ IH]; simpl; [done|].
  by rewrite Hb, IH.
Qed.

Lemma concat_map_perm {A B : Type} (f : A -> list B) (order order' : list A) :
  order ≡ₚ order' -> concat (map f order) ≡ₚ concat (map f order').
Proof.
  induction 1 as [|x l l' _ IH|x y l|l l' l'' _ IH1 _ IH2]; simpl.
  - done.
  - by rewrite IH.
  - rewrite !app_assoc. f_equiv. apply Permutation_app_comm.
  - by rewrite IH1.
Qed.

(** A range loop writes, up to order, what its body writes for each entry. *)
Lemma rangeMap_perm {V B : Type} (m : gmap string V)
    (body : string -> V -> list B -> Prop) (f : string * V -> list B) (out : list B) :
  (forall k v block, body k v block -> block ≡ₚ f (k, v)) ->
  rangeMap m body out ->
  out ≡ₚ concat (map f (map_to_list m)).
Proof.
  intros Hbody (order & blocks & Hperm & Hall & ->).
  rewrite <- (concat_map_perm f _ _ Hperm). apply concat_blocks_perm.
  eapply Forall2_impl; [exact Hall|]. intros [k v] block Hb. by apply Hbody.
Qed.

Lemma rangeMap_Forall {V B : Type} (m : gmap string V)
    (body : string -> V -> list B -> Prop) (P : B -> Prop) (out : list B) :
  (forall k v block, body k v block -> Forall P block) ->
  rangeMap m body out -> Forall P out.
Proof.
  intros Hbody (order & blocks & _ & Hall & ->).
  induction Hall as [|kv block order' blocks' Hb _ IH]; simpl; [constructor|].
  apply Forall_app. split; [by eapply Hbody|done].
Qed.

(** X18: whatever order the map iterations take, the writer's output is the
    header, then the local rows, then the remote rows; each group is a
    rearrangement of one row per stored value, and every row has the five
    columns of the header. *)
Theorem X18_writer_rows (localInfo : gmap string (gmap string string))
    (remoteInfo : gmap string (gmap string (gmap string string)))
    (rows : list (list string)) :
  writeBatchCSV localInfo remoteInfo rows ->
  exists locals remotes,
    rows = ["Type"; "Target"; "ID"; "OID"; "Value"] :: locals ++ remotes /\
    locals ≡ₚ localRowsOf localInfo /\
    remotes ≡ₚ remoteRowsOf remoteInfo /\
    length rows = S (length (localRowsOf localInfo) + length (remoteRowsOf remoteInfo)) /\
    Forall (fun row => length row = 5%nat) rows.
Proof.
  intros (locals & remotes & Hlocals & Hremotes & ->).
  assert (Hl : locals ≡ₚ localRowsOf localInfo).
  { unfold localRowsOf. eapply rangeMap_perm; [|exact Hlocals].
    intros target info block Hb. simpl.
    eapply (rangeMap_perm info _ (fun ov => [["Local"; target; ""; ov.1; ov.2]]));
      [|exact Hb].
    by intros oid value rows ->. }
  assert (Hr : remotes ≡ₚ remoteRowsOf remoteInfo).
  { unfold remoteRowsOf. eapply rangeMap_perm; [|exact Hremotes].
    intros target info block Hb. simpl.
    eapply (rangeMap_perm info _
              (fun row => concat (map (fun ov : string * string =>
                 [["Remote"; target; row.1; ov.1; ov.2]]) (map_to_list row.2))));
      [|exact Hb].
    intros id subInfo block' Hb'. simpl.
    eapply (rangeMap_perm subInfo _ (fun ov => [["Remote"; target; id; ov.1; ov.2]]));
      [|exact Hb'].
    by intros oid value rows ->. }
  exists locals, remotes. split; [done|]. split; [done|]. split; [done|]. split.
  - simpl. by rewrite length_app, Hl, Hr.
  - apply Forall_cons. split; [done|]. apply Forall_app. split.
    + eapply rangeMap_Forall; [|exact Hlocals]. intros target info block Hb.
      eapply rangeMap_Forall; [|exact Hb]. intros oid value rows ->.
      by repeat constructor.
    + eapply rangeMap_Forall; [|exact Hremotes]. intros target info block Hb.
      eapply rangeMap_Forall; [|exact Hb]. intros id subInfo block' Hb'.
      eapply rangeMap_Forall; [|exact Hb']. intros oid value rows ->.
      by repeat constructor.
Qed.

Lemma X18_writer_rows_witness :
  let remoteInfo : gmap string (gmap string (gmap string string)) :=
    {[ "switch" := {[ "100" := {[ "1" := "chassis-of-one" ]} ]} ]} in
  let rows := [ ["Type"; "Target"; "ID"; "OID"; "Value"];
                ["Remote"; "switch"; "100"; "1"; "chassis-of-one"] ] in
  exists locals remotes,
    rows = ["Type"; "Target"; "ID"; "OID"; "Value"] :: locals ++ remotes /\
    locals ≡ₚ localRowsOf ∅ /\
    remotes ≡ₚ remoteRowsOf remoteInfo /\
    length rows = S (length (localRowsOf ∅) + length (remoteRowsOf remoteInfo)) /\
    Forall (fun row => length row = 5%nat) rows.
Proof.
  intros remoteInfo rows. apply (X18_writer_rows ∅ remoteInfo rows).
  exists [], [["Remote"; "switch"; "100"; "1"; "chassis-of-one"]].
  split; [|split; [|reflexivity]].
  - exists [], []. rewrite map_to_list_empty. by repeat split.
  - apply rangeMap_singleton, rangeMap_singleton, rangeMap_singleton. reflexivity.
Defined.

End IndexedOutput.

(** ** Further properties of the batch loop *)

Section BatchCoverage.

Import Hex.

Lemma mainLoop_app (net : Network) (st : batchState) (front back : list (list string)) :
  mainLoop net st (front ++ back) = (st' ← mainLoop net st front; mainLoop net st' back).
Proof.
  revert st. induction front as [|record rest IH]; intros st; simpl; [reflexivity|].
  destruct (mainStep net st record) as [st'| |msg]; simpl; [apply IH|reflexivity|reflexivity].
Qed.

Lemma connects_app (net : Network) (front back : list (list string)) :
  connects net (front ++ back) -> connects net front /\ connects net back.
Proof.
  intros Hconn. split; intros target community rest Hin; apply (Hconn _ _ rest);
    apply elem_of_app; [by left|by right].
Qed.

(** X19: a target that refuses the connection ends the run wherever it
    stands in the batch: the targets polled before it are lost with it, the
    run is fatal with that target's message, and no state is returned. *)
Theorem X19_connect_failure_is_fatal (net : Network) (front back : list (list string))
    (target community err : string) (rest : list string) :
  connects net front ->
  wellTypedNetwork net ->
  Connect (net target community) = Some err ->
  main net (Ok (front ++ (target :: community :: rest) :: back)) =
    Fatal ("Error connecting to target " +:+ target +:+ ": " +:+ err).
Proof.
  intros Hconn Hwt Herr. unfold main. rewrite mainLoop_app.
  destruct (mainLoop_skips net front (mkBatch ∅ ∅ []) (mkBatch ∅ ∅ []) Hconn Hwt)
    as (final & _ & -> & _); [done..|].
  simpl. unfold initializeSNMP. by rewrite Herr.
Qed.

Lemma X19_connect_failure_is_fatal_witness :
  main unreachableFirst
    (Ok ([["switch-2"; "public"]] ++ ["switch-1"; "public"] :: [["switch-3"; "public"]])) =
    Fatal ("Error connecting to target " +:+ "switch-1" +:+ ": "
           +:+ "dial udp: lookup switch-1: no such host").
Proof.
  apply (X19_connect_failure_is_fatal unreachableFirst [["switch-2"; "public"]]
           [["switch-3"; "public"]] "switch-1" "public"
           "dial udp: lookup switch-1: no such host" []).
  - intros target community rest Hin.
    apply list_elem_of_singleton in Hin as [= -> -> ->]. reflexivity.
  - intros target community oids root. unfold unreachableFirst.
    destruct (String.eqb target "switch-1"); simpl; split;
      apply (bool_decide_unpack _); vm_compute; reflexivity.
  - reflexivity.
Defined.

(** The entries of the two maps after the loop: those there at the start
    and those of the answering records. *)
Lemma mainLoop_keys (net : Network) (records : list (list string))
    (st final : batchState) (target : string) :
  connects net records ->
  wellTypedNetwork net ->
  mainLoop net st records = Returns final ->
  (is_Some (allLocalInfo final !! target) <->
   is_Some (allLocalInfo st !! target) \/ polled net records target) /\
  (is_Some (allRemoteInfo final !! target) <->
   is_Some (allRemoteInfo st !! target) \/ polled net records target).
Proof.
  intros Hconn Hwt. revert st.
  induction records as [|record rest IH]; intros st Hrun; simpl in Hrun.
  - injection Hrun as <-. unfold polled.
    split; (split; [eauto|intros [?|(c & r & Hin & _)]; [done|inversion Hin]]).
  - apply connects_cons in Hconn as [Hone Hrest].
    destruct (mainStep_cases net record Hone Hwt)
      as [(Hans & t & li & ri & Hhead & Hstep)|(Hans & line & Hstep)];
      rewrite Hstep in Hrun; simpl in Hrun;
      destruct (IH Hrest _ Hrun) as [Hl Hr]; rewrite Hl, Hr; simpl; clear Hl Hr.
    + assert (Hcons : polled net (record :: rest) target <->
                      t = target \/ polled net rest target).
      { unfold polled. split.
        - intros (c & r & Hin & Hok). apply elem_of_cons in Hin as [<-|Hin].
          + left. simpl in Hhead. congruence.
          + right. eauto.
        - intros [<-|(c & r & Hin & Hok)].
          + destruct record as [|t' [|c r]]; try discriminate.
            simpl in Hhead. injection Hhead as ->.
            exists c, r. split; [by left|done].
          + exists c, r. split; [by right|done]. }
      rewrite Hcons. split.
      * destruct (decide (t = target)) as [->|Hne].
        -- rewrite lookup_insert_eq. split; eauto.
        -- rewrite lookup_insert_ne by done. tauto.
      * destruct (decide (t = target)) as [->|Hne].
        -- rewrite lookup_insert_eq. split; eauto.
        -- rewrite lookup_insert_ne by done. tauto.
    + assert (Hcons : polled net (record :: rest) target <-> polled net rest target).
      { unfold polled. split.
        - intros (c & r & Hin & Hok). apply elem_of_cons in Hin as [<-|Hin]; [congruence|].
          eauto.
        - intros (c & r & Hin & Hok). exists c, r. split; [by right|done]. }
      rewrite Hcons. done.
Qed.

(** X20: the two maps handed to the writer have the same targets, and a
    target is in them exactly when some record of the batch names it and
    got a reply to both its get and its walk; a target whose queries all
    failed is absent from both. *)
Theorem X20_output_targets (net : Network) (records : list (list string))
    (final : batchState) (target : string) :
  connects net records ->
  wellTypedNetwork net ->
  main net (Ok records) = Returns final ->
  (is_Some (allLocalInfo final !! target) <-> polled net records target) /\
  (is_Some (allRemoteInfo final !! target) <-> polled net records target).
Proof.
  intros Hconn Hwt Hrun. unfold main in Hrun.
  destruct (mainLoop_keys net records _ final target Hconn Hwt Hrun) as [Hl Hr].
  simpl in Hl, Hr. rewrite lookup_empty in Hl. rewrite lookup_empty in Hr.
  split; [rewrite Hl|rewrite Hr]; (split; [intros [[? ?]|?]; [discriminate|done]|eauto]).
Qed.

Lemma X20_output_targets_witness :
  let batch := [["switch-1"; "public"]; ["switch-2"; "public"]; ["switch-3"; "public"]] in
  let final :=
    match main threeSwitches (Ok batch) with
    | Returns st => st
    | _ => mkBatch ∅ ∅ []
    end in
  (is_Some (allLocalInfo final !! "switch-2") <-> polled threeSwitches batch "switch-2") /\
  (is_Some (allRemoteInfo final !! "switch-2") <-> polled threeSwitches batch "switch-2").
Proof.
  intros batch final. apply (X20_output_targets threeSwitches batch final "switch-2").
  - intros target community rest _. unfold threeSwitches.
    destruct (String.eqb target "switch-2"); reflexivity.
  - intros target community oids root. unfold threeSwitches.
    destruct (String.eqb target "switch-2"); simpl; split; try exact I;
      apply (bool_decide_unpack _); vm_compute; reflexivity.
  - vm_compute. reflexivity.
Defined.

Lemma mainStep_answering (net : Network) (st : batchState)
    (target community : string) (rest : list string) :
  Connect (net target community) = None ->
  wellTypedNetwork net ->
  answers net (target :: community :: rest) = true ->
  exists localInfo remoteInfo,
    fetchLocalLLDP (net target community) = Returns (Ok localInfo) /\
    fetchRemoteLLDP (net target community) = Returns (Ok remoteInfo) /\
    mainStep net st (target :: community :: rest) =
      Returns (mkBatch (<[target := localInfo]> (allLocalInfo st))
                       (<[target := remoteInfo]> (allRemoteInfo st))
                       (logged st)).
Proof.
  intros Hconn Hwt Hans.
  destruct (Hwt target community localOids lldpRemTable) as [Hget Hwalk].
  unfold answers in Hans.
  destruct (fetchLocalLLDP_total _ Hget) as [(vs & li & Hg & Hl)|(err & Hg & _)];
    [|by rewrite Hg in Hans].
  destruct (fetchRemoteLLDP_total _ Hwalk) as [(cs & ri & Hw & Hr)|(err & Hw & _)];
    [|by rewrite Hg, Hw in Hans].
  exists li, ri. split; [done|]. split; [done|].
  unfold mainStep, initializeSNMP. rewrite Hconn. simpl. rewrite Hl. simpl. by rewrite Hr.
Qed.

Lemma mainLoop_untouched (net : Network) (records : list (list string))
    (st final : batchState) (target : string) :
  connects net records ->
  wellTypedNetwork net ->
  ~ polled net records target ->
  mainLoop net st records = Returns final ->
  allLocalInfo final !! target = allLocalInfo st !! target /\
  allRemoteInfo final !! target = allRemoteInfo st !! target.
Proof.
  intros Hconn Hwt. revert st.
  induction records as [|record rest IH]; intros st Hno Hrun; simpl in Hrun.
  - by injection Hrun as <-.
  - apply connects_cons in Hconn as [Hone Hrest].
    assert (Hno' : ~ polled net rest target).
    { intros (c & r & Hin & Hok). apply Hno. exists c, r. split; [by right|done]. }
    destruct (mainStep_cases net record Hone Hwt)
      as [(Hans & t & li & ri & Hhead & Hstep)|(Hans & line & Hstep)];
      rewrite Hstep in Hrun; simpl in Hrun;
      destruct (IH Hrest _ Hno' Hrun) as [-> ->]; simpl; [|done].
    assert (Hne : t ≠ target).
    { intros ->. apply Hno. destruct record as [|t' [|c r]]; try discriminate.
      simpl in Hhead. injection Hhead as ->. exists c, r. split; [by left|done]. }
    by rewrite !lookup_insert_ne.
Qed.

(** X21: when a target is named by several records, the entry handed to the
    writer is the one of its last answering record: the local record and the
    remote records fetched with that record's community. *)
Theorem X21_last_answering_record_wins (net : Network) (front back : list (list string))
    (target community : string) (rest : list string) :
  connects net (front ++ (target :: community :: rest) :: back) ->
  wellTypedNetwork net ->
  answers net (target :: community :: rest) = true ->
  ~ polled net back target ->
  exists final localInfo remoteInfo,
    main net (Ok (front ++ (target :: community :: rest) :: back)) = Returns final /\
    fetchLocalLLDP (net target community) = Returns (Ok localInfo) /\
    fetchRemoteLLDP (net target community) = Returns (Ok remoteInfo) /\
    allLocalInfo final !! target = Some localInfo /\
    allRemoteInfo final !! target = Some remoteInfo.
Proof.
  intros Hconn Hwt Hans Hback.
  destruct (mainLoop_skips net _ (mkBatch ∅ ∅ []) (mkBatch ∅ ∅ []) Hconn Hwt)
    as (final & _ & Hrun & _); [done..|].
  apply connects_app in Hconn as [Hfront Hconn].
  apply connects_cons in Hconn as [Hone Hrest].
  exists final. unfold main. rewrite Hrun.
  rewrite mainLoop_app in Hrun.
  destruct (mainLoop net (mkBatch ∅ ∅ []) front) as [st1| |msg];
    try (simpl in Hrun; discriminate).
  change (mainLoop net st1 ((target :: community :: rest) :: back) = Returns final) in Hrun.
  destruct (mainStep_answering net st1 target community rest
              (Hone _ _ rest ltac:(by left)) Hwt Hans) as (li & ri & Hl & Hr & Hstep).
  change (mainLoop net st1 ((target :: community :: rest) :: back))
    with (st' ← mainStep net st1 (target :: community :: rest); mainLoop net st' back) in Hrun.
  rewrite Hstep in Hrun. simpl in Hrun.
  destruct (mainLoop_untouched net back _ final target Hrest Hwt Hback Hrun) as [Hfl Hfr].
  simpl in Hfl, Hfr. rewrite lookup_insert_eq in Hfl. rewrite lookup_insert_eq in Hfr.
  exists li, ri. done.
Qed.

Lemma X21_last_answering_record_wins_witness :
  let front := [["switch-1"; "public"]; ["switch-2"; "public"]] in
  exists final localInfo remoteInfo,
    main threeSwitches (Ok (front ++ ["switch-1"; "private"] :: [])) = Returns final /\
    fetchLocalLLDP (threeSwitches "switch-1" "private") = Returns (Ok localInfo) /\
    fetchRemoteLLDP (threeSwitches "switch-1" "private") = Returns (Ok remoteInfo) /\
    allLocalInfo final !! "switch-1" = Some localInfo /\
    allRemoteInfo final !! "switch-1" = Some remoteInfo.
Proof.
  intros front.
  apply (X21_last_answering_record_wins threeSwitches front [] "switch-1" "private" []).
  - intros target community rest _. unfold threeSwitches.
    destruct (String.eqb target "switch-2"); reflexivity.
  - intros target community oids root. unfold threeSwitches.
    destruct (String.eqb target "switch-2"); simpl; split; try exact I;
      apply (bool_decide_unpack _); vm_compute; reflexivity.
  - vm_compute. reflexivity.
  - intros (c & r & Hin & _). inversion Hin.
Defined.

End BatchCoverage.

(** ** The writer of the first and second programs *)

Section ReportCoverage.

Import Indexed Report.

Lemma rangeMap_sound {V B : Type} (m : gmap string V)
    (body : string -> V -> list B -> Prop) (out : list B) (x : B) :
  rangeMap m body out -> x ∈ out ->
  exists k v block, m !! k = Some v /\ body k v block /\ x ∈ block.
Proof.
  intros (order & blocks & Hperm & Hall & ->) Hin.
  assert (Hfrom : exists kv block, kv ∈ order /\ body kv.1 kv.2 block /\ x ∈ block).
  { clear Hperm. induction Hall as [|kv block order' blocks' Hb _ IH]; simpl in Hin.
    - inversion Hin.
    - apply elem_of_app in Hin as [Hin|Hin].
      + exists kv, block. split; [by left|done].
      + destruct (IH Hin) as (kv' & block' & Hkv & Hb' & Hx).
        exists kv', block'. split; [by right|done]. }
  destruct Hfrom as ([k v] & block & Hkv & Hb & Hx).
  exists k, v, block. split; [|done].
  apply elem_of_map_to_list. by rewrite <- Hperm.
Qed.

Lemma rangeMap_complete {V B : Type} (m : gmap string V)
    (body : string -> V -> list B -> Prop) (out : list B) (k : string) (v : V) :
  rangeMap m body out -> m !! k = Some v ->
  exists block, body k v block /\ forall x, x ∈ block -> x ∈ out.
Proof.
  intros (order & blocks & Hperm & Hall & ->) Hk.
  assert (Hkv : (k, v) ∈ order) by (rewrite Hperm; by apply elem_of_map_to_list).
  clear Hperm. induction Hall as [|kv block order' blocks' Hb _ IH]; [inversion Hkv|].
  simpl. apply elem_of_cons in Hkv as [<-|Hkv].
  - exists block. split; [done|]. intros x Hx. apply elem_of_app. by left.
  - destruct (IH Hkv) as (block' & Hb' & Hsub). exists block'. split; [done|].
    intros x Hx. apply elem_of_app. right. by apply Hsub.
Qed.

Lemma recordRows_elem (kind target : string) (info : gmap string string)
    (rows : list (list string)) (row : list string) :
  recordRows kind target info rows ->
  row ∈ rows <-> exists desc value, info !! desc = Some value /\ row = [kind; target; desc; value].
Proof.
  intros Hrows. split.
  - intros Hin. destruct (rangeMap_sound _ _ _ _ Hrows Hin) as (desc & value & block & Hd & -> & Hx).
    apply list_elem_of_singleton in Hx. by exists desc, value.
  - intros (desc & value & Hd & ->).
    destruct (rangeMap_complete _ _ _ _ _ Hrows Hd) as (block & -> & Hsub).
    apply Hsub. by left.
Qed.

Lemma sliceRows_elem (target : string) (infos : list (gmap string string))
    (rows : list (list string)) (row : list string) :
  sliceRows target infos rows ->
  row ∈ rows <->
  exists info desc value,
    info ∈ infos /\ info !! desc = Some value /\ row = ["Remote"; target; desc; value].
Proof.
  intros (blocks & Hall & ->).
  induction Hall as [|info block infos' blocks' Hb _ IH]; simpl.
  - split; [intros Hin; inversion Hin|intros (i & _ & _ & Hin & _); inversion Hin].
  - rewrite elem_of_app, IH, (recordRows_elem _ _ _ _ row Hb). split.
    + intros [(d & v & Hd & ->)|(i & d & v & Hi & Hd & ->)].
      * exists info, d, v. split; [by left|done].
      * exists i, d, v. split; [by right|done].
    + intros (i & d & v & Hi & Hd & ->). apply elem_of_cons in Hi as [->|Hi].
      * left. by exists d, v.
      * right. by exists i, d, v.
Qed.

(** X22: when the output file can be created, the writer starts with the
    header and writes exactly the stored values: the rows after the header
    are the local rows followed by the remote rows, a row is written for
    every entry of every record, and no row is written that is not such an
    entry. *)
Theorem X22_report_rows_are_the_entries
    (localInfo : gmap string (gmap string string))
    (remoteInfo : gmap string (list (gmap string string)))
    (out : result (list (list string))) :
  writeBatchCSV None localInfo remoteInfo out ->
  exists locals remotes,
    out = Ok (["Type"; "Target"; "Description"; "Value"] :: locals ++ remotes) /\
    (forall row, row ∈ locals <->
       exists target info desc value,
         localInfo !! target = Some info /\ info !! desc = Some value /\
         row = ["Local"; target; desc; value]) /\
    (forall row, row ∈ remotes <->
       exists target infos info desc value,
         remoteInfo !! target = Some infos /\ info ∈ infos /\ info !! desc = Some value /\
         row = ["Remote"; target; desc; value]).
Proof.
  intros (locals & remotes & Hlocals & Hremotes & ->).
  exists locals, remotes. split; [done|]. split.
  - intros row. split.
    + intros Hin.
      destruct (rangeMap_sound _ _ _ _ Hlocals Hin) as (target & info & block & Ht & Hb & Hx).
      apply (recordRows_elem _ _ _ _ row Hb) in Hx as (d & v & Hd & ->).
      exists target, info, d, v. done.
    + intros (target & info & d & v & Ht & Hd & ->).
      destruct (rangeMap_complete _ _ _ _ _ Hlocals Ht) as (block & Hb & Hsub).
      apply Hsub. apply (recordRows_elem _ _ _ _ _ Hb). by exists d, v.
  - intros row. split.
    + intros Hin.
      destruct (rangeMap_sound _ _ _ _ Hremotes Hin) as (target & infos & block & Ht & Hb & Hx).
      apply (sliceRows_elem _ _ _ row Hb) in Hx as (i & d & v & Hi & Hd & ->).
      exists target, infos, i, d, v. done.
    + intros (target & infos & i & d & v & Ht & Hi & Hd & ->).
      destruct (rangeMap_complete _ _ _ _ _ Hremotes Ht) as (block & Hb & Hsub).
      apply Hsub. apply (sliceRows_elem _ _ _ _ Hb). by exists i, d, v.
Qed.

Lemma X22_report_rows_are_the_entries_witness :
  let localInfo : gmap string (gmap string string) :=
    {[ "switch" := {[ "Local System Name" := "core-switch-1" ]} ]} in
  let remoteInfo : gmap string (list (gmap string string)) :=
    {[ "switch" := [ {[ "Remote System Name" := "sys-name-of-one" ]} ] ]} in
  let out := Ok [ ["Type"; "Target"; "Description"; "Value"];
                  ["Local"; "switch"; "Local System Name"; "core-switch-1"];
                  ["Remote"; "switch"; "Remote System Name"; "sys-name-of-one"] ] in
  exists locals remotes,
    out = Ok (["Type"; "Target"; "Description"; "Value"] :: locals ++ remotes) /\
    (forall row, row ∈ locals <->
       exists target info desc value,
         localInfo !! target = Some info /\ info !! desc = Some value /\
         row = ["Local"; target; desc; value]) /\
    (forall row, row ∈ remotes <->
       exists target infos info desc value,
         remoteInfo !! target = Some infos /\ info ∈ infos /\ info !! desc = Some value /\
         row = ["Remote"; target; desc; value]).
Proof.
  intros localInfo remoteInfo out.
  apply (X22_report_rows_are_the_entries localInfo remoteInfo out).
  exists [["Local"; "switch"; "Local System Name"; "core-switch-1"]],
         [["Remote"; "switch"; "Remote System Name"; "sys-name-of-one"]].
  split; [|split; [|reflexivity]].
  - apply rangeMap_singleton. unfold recordRows. by apply rangeMap_singleton.
  - apply rangeMap_singleton.
    exists [[["Remote"; "switch"; "Remote System Name"; "sys-name-of-one"]]].
    split; [|reflexivity]. constructor; [|constructor].
    unfold recordRows. by apply rangeMap_singleton.
Defined.

(** X23: the records of one target are written in the order the remote
    fetch returned them, each as one run of rows, one row per entry; only
    the entries inside a record may be rearranged. *)
Theorem X23_report_keeps_record_order (target : string)
    (infos : list (gmap string string)) (out : result (list (list string))) :
  writeBatchCSV None ∅ {[ target := infos ]} out ->
  exists blocks,
    out = Ok (["Type"; "Target"; "Description"; "Value"] :: concat blocks) /\
    Forall2 (fun info block =>
               block ≡ₚ (fun entry : string * string =>
                           ["Remote"; target; entry.1; entry.2]) <$> map_to_list info)
            infos blocks.
Proof.
  intros (locals & remotes & Hlocals & Hremotes & ->).
  apply rangeMap_empty in Hlocals as ->.
  apply rangeMap_singleton in Hremotes as (blocks & Hall & ->).
  exists blocks. split; [done|].
  eapply Forall2_impl; [exact Hall|]. intros info block Hb. simpl in Hb.
  assert (Hperm : block ≡ₚ concat (map
    (fun entry : string * string => [["Remote"; target; entry.1; entry.2]])
    (map_to_list info))).
  { eapply (rangeMap_perm info _
      (fun entry : string * string => [["Remote"; target; entry.1; entry.2]]));
      [|exact Hb].
    by intros desc value rows ->. }
  apply (Permutation_trans Hperm). clear.
  induction (map_to_list info) as [|entry rest IH]; simpl; [done|].
  by constructor.
Qed.

Lemma X23_report_keeps_record_order_witness :
  let infos : list (gmap string string) :=
    [ {[ "Remote System Name" := "sys-name-of-one" ]};
      {[ "Remote System Name" := "sys-name-of-two" ]} ] in
  let out := Ok [ ["Type"; "Target"; "Description"; "Value"];
                  ["Remote"; "switch"; "Remote System Name"; "sys-name-of-one"];
                  ["Remote"; "switch"; "Remote System Name"; "sys-name-of-two"] ] in
  exists blocks,
    out = Ok (["Type"; "Target"; "Description"; "Value"] :: concat blocks) /\
    Forall2 (fun info block =>
               block ≡ₚ (fun entry : string * string =>
                           ["Remote"; "switch"; entry.1; entry.2]) <$> map_to_list info)
            infos blocks.
Proof.
  intros infos out. apply (X23_report_keeps_record_order "switch" infos out).
  exists [], [ ["Remote"; "switch"; "Remote System Name"; "sys-name-of-one"];
               ["Remote"; "switch"; "Remote System Name"; "sys-name-of-two"] ].
  split; [|split; [|reflexivity]].
  - exists [], []. rewrite map_to_list_empty. by repeat split.
  - apply rangeMap_singleton.
    exists [ [["Remote"; "switch"; "Remote System Name"; "sys-name-of-one"]];
             [["Remote"; "switch"; "Remote System Name"; "sys-name-of-two"]] ].
    split; [|reflexivity].
    constructor; [|constructor; [|constructor]]; unfold recordRows;
      by apply rangeMap_singleton.
Defined.

End ReportCoverage.
